(** * VaccineWeekly: the chunked WeCom delivery and the weekly workflow

    A shallow embedding of [src/services/wecomService.ts] (the splitting of a
    report into chunks and their sequential transmission) and of the workflow
    logic of [src/App.tsx] (scheduler tick, generation phase, send phase and
    the delayed status resets), followed by the properties of the
    specification that concern them.

    Strings are sequences of code units.  The model takes Rocq's [string]
    (8-bit units): the splitting only compares units with the line feed and
    counts them, so nothing below depends on the width of a unit. *)

From Stdlib Require Import List String Ascii Arith Bool Lia ZArith.
From Stdlib Require Import Numbers.DecimalString.
Import ListNotations.
Open Scope string_scope.

(** ** JavaScript primitives used by the sources *)

Module Js.

(** The line feed, ['\n']. *)
Definition LF : ascii := "010"%char.
Definition NL : string := String LF EmptyString.

(** Truthiness of a string: [if (s)] holds iff [s] is not empty. *)
Definition truthy (s : string) : bool :=
  match s with
  | EmptyString => false
  | String _ _ => true
  end.

(** [s.split('\n')]: the maximal runs of units between line feeds; the
    result is never empty ([''.split('\n')] is [['']]). *)
Fixpoint split_nl (s : string) : list string :=
  match s with
  | EmptyString => [EmptyString]
  | String c rest =>
      if Ascii.eqb c LF then EmptyString :: split_nl rest
      else match split_nl rest with
           | l :: ls => String c l :: ls
           | [] => [String c EmptyString]
           end
  end.

(** Whether a string holds a line feed. *)
Fixpoint hasLF (s : string) : bool :=
  match s with
  | EmptyString => false
  | String c rest => Ascii.eqb c LF || hasLF rest
  end.

(** Whether a string is made of line feeds only (the empty string is). *)
Fixpoint onlyLF (s : string) : bool :=
  match s with
  | EmptyString => true
  | String c rest => Ascii.eqb c LF && onlyLF rest
  end.

(** The lines of a string that are not empty, in order. *)
Definition nonEmptyLines (s : string) : list string :=
  filter truthy (split_nl s).

(** Whether no line of a string is empty: the string is not empty, does
    not start or end with a line feed and has no two line feeds in a row. *)
Definition noEmptyLine (s : string) : bool :=
  forallb truthy (split_nl s).

(** [xs.join(sep)]. *)
Definition join (sep : string) (xs : list string) : string :=
  String.concat sep xs.

(** Template interpolation of a non-negative integer. *)
Definition dec (n : nat) : string :=
  NilEmpty.string_of_uint (Nat.to_uint n).

(** Template interpolation of an integer. *)
Definition decZ (z : Z) : string :=
  NilEmpty.string_of_int (Z.to_int z).

Definition hexDigit (n : nat) : ascii :=
  match n with
  | 0 => "0" | 1 => "1" | 2 => "2" | 3 => "3" | 4 => "4" | 5 => "5"
  | 6 => "6" | 7 => "7" | 8 => "8" | 9 => "9" | 10 => "A" | 11 => "B"
  | 12 => "C" | 13 => "D" | 14 => "E" | _ => "F"
  end%char.

(** The units [encodeURIComponent] leaves alone: letters, digits and
    [- _ . ! ~ * ' ( )]. *)
Definition unreserved (c : ascii) : bool :=
  let n := nat_of_ascii c in
  (((65 <=? n) && (n <=? 90)) || ((97 <=? n) && (n <=? 122))
   || ((48 <=? n) && (n <=? 57))
   || existsb (Nat.eqb n) [45; 95; 46; 33; 126; 42; 39; 40; 41])%nat.

(** [encodeURIComponent(s)], unit by unit: every other unit becomes
    [%XX].  (On 8-bit units this is the built-in applied to the UTF-8
    encoding of the text.) *)
Fixpoint encodeURIComponent (s : string) : string :=
  match s with
  | EmptyString => EmptyString
  | String c rest =>
      if unreserved c then String c (encodeURIComponent rest)
      else let n := nat_of_ascii c in
           String "%" (String (hexDigit (n / 16)) (String (hexDigit (n mod 16))
                  (encodeURIComponent rest)))
  end.

(** [s.repeat(n)]. *)
Definition repeatStr (s : string) (n : nat) : string :=
  String.concat "" (repeat s n).

(** Outcome of an awaited call: a value, or a thrown error. *)
Record Error := mkError { message : string }.

Inductive Result (A : Type) : Type :=
| Ok (a : A)
| Throw (e : Error).
Arguments Ok {A} a.
Arguments Throw {A} e.

Definition bind {A B : Type} (r : Result A) (k : A -> Result B) : Result B :=
  match r with
  | Ok a => k a
  | Throw e => Throw e
  end.

(** Whether a string starts with a line feed. *)
Definition startsWithLF (s : string) : bool :=
  match s with
  | EmptyString => false
  | String c _ => Ascii.eqb c LF
  end.

(** The first line of a string. *)
Definition firstLine (s : string) : string := hd "" (split_nl s).

(** A run of [n] line feeds. *)
Fixpoint LFs (n : nat) : string :=
  match n with
  | 0 => EmptyString
  | S n' => String LF (LFs n')
  end.

End Js.

Import Js.

Notation "x <- r ;; k" := (bind r (fun x => k))
  (at level 61, r at next level, right associativity).

(** ** [src/services/wecomService.ts] *)

Module WeCom.

(** *** Splitting (lines 13-34) *)

Definition CHUNK_SIZE : nat := 1024.

(** The two variables the loop updates: [chunks] and [currentChunk]. *)
Record Acc := mkAcc { chunks : list string; currentChunk : string }.

(** [if (currentChunk) chunks.push(currentChunk)] *)
Definition pushIfAny (cs : list string) (cur : string) : list string :=
  if truthy cur then (cs ++ [cur])%list else cs.

(** One iteration of [for (const line of lines)], for a limit [M]. *)
Definition addLine (M : nat) (a : Acc) (line : string) : Acc :=
  if (M <? String.length (currentChunk a) + String.length line + 1)%nat then
    {| chunks := pushIfAny (chunks a) (currentChunk a);
       currentChunk := line |}
  else
    {| chunks := chunks a;
       currentChunk := if truthy (currentChunk a)
                       then currentChunk a ++ NL ++ line
                       else line |}.

(** [const chunks = []; let currentChunk = ""] *)
Definition start : Acc := {| chunks := []; currentChunk := "" |}.

(** The whole split, for a limit [M]. *)
Definition split (M : nat) (content : string) : list string :=
  let a := fold_left (addLine M) (split_nl content) start in
  pushIfAny (chunks a) (currentChunk a).

(** A chunk is within the limit, or is one whole line of the content that
    is itself over the limit. *)
Definition withinLimit (M : nat) (content chunk : string) : Prop :=
  String.length chunk <= M
  \/ (M < String.length chunk /\ In chunk (split_nl content)).

(** Every line of a chunk is a line of the content. *)
Definition wholeLines (content chunk : string) : Prop :=
  incl (split_nl chunk) (split_nl content).

(** Loop invariant for content without empty lines: once lines [pre] have
    been consumed, the chunks and the current chunk joined are [pre]
    joined. *)
Definition joins (pre : list string) (a : Acc) : Prop :=
  (pre = [] /\ a = start)
  \/ (pre <> [] /\ truthy (currentChunk a) = true
      /\ join NL (chunks a ++ [currentChunk a]) = join NL pre).

(** The chunks [sendToWeCom] works with. *)
Definition chunksOf (content : string) : list string :=
  split CHUNK_SIZE content.

(** *** Transmission (lines 36-78) *)

(** The value handed to [JSON.stringify]. *)
#[local] Set Warnings "-register-all".
Inductive Json :=
| JString (s : string)
| JObject (fields : list (string * Json)).

(** The arguments of one [fetch]; [body] is the value that is serialised. *)
Record Request := mkRequest {
  url : string;
  method : string;
  headers : list (string * string);
  body : Json
}.

(** [data.errcode] as the code sees it.  [CodeNum n] is a number that
    interpolation prints in plain decimal, that is, an integer of magnitude
    below 10^21; every other value (a number printed with an exponent or a
    fraction, a string, [undefined], ...) is [CodeOther], kept as the text
    interpolation gives for it, and is not [0]. *)
Inductive ErrCode :=
| CodeNum (n : Z)
| CodeOther (shown : string).

Record Data := mkData { errcode : ErrCode; errmsg : string }.

(** What the sink answers: [fetch] rejects, or yields a response whose
    [text()] and [json()] are themselves awaited. *)
Record Response := mkResponse {
  ok : bool;
  status : nat;
  text : Result string;
  json : Result Data
}.

Inductive FetchOutcome :=
| Rejected (e : Error)
| Responded (r : Response).

(** The sink: what the [i]-th fetch of a delivery is answered with. *)
Definition Sink := nat -> Request -> FetchOutcome.

(** What a delivery does that is visible from outside. *)
Inductive Event :=
| Fetch (req : Request)
| Sleep (ms : N)
| ConsoleError (msg : string) (e : Error).

Definition proxyUrl : string := "https://corsproxy.io/?".

Definition targetUrl (webhookUrl : string) : string :=
  proxyUrl ++ encodeURIComponent webhookUrl.

Definition payload (chunk : string) : Json :=
  JObject [("msgtype", JString "markdown");
           ("markdown", JObject [("content", JString chunk)])].

Definition request (target chunk : string) : Request :=
  {| url := target;
     method := "POST";
     headers := [("Content-Type", "application/json")];
     body := payload chunk |}.

Definition showCode (c : ErrCode) : string :=
  match c with
  | CodeNum n => decZ n
  | CodeOther shown => shown
  end.

Definition isZero (c : ErrCode) : bool :=
  match c with
  | CodeNum n => Z.eqb n 0
  | CodeOther _ => false
  end.

(** The body of the [try] up to the delay (lines 48-66). *)
Definition check (o : FetchOutcome) : Result unit :=
  match o with
  | Rejected e => Throw e
  | Responded response =>
      if negb (ok response) then
        t <- text response ;;
        Throw (mkError ("HTTP " ++ dec (status response) ++ ": " ++ t))
      else
        data <- json response ;;
        if negb (isZero (errcode data)) then
          Throw (mkError ("WeCom API Error (" ++ showCode (errcode data)
                          ++ "): " ++ errmsg data))
        else Ok tt
  end.

(** The loop [for (let i = 0; i < chunks.length; i++)], from index [i] on;
    [n] is [chunks.length] and [rest] the chunks from [i]. *)
Fixpoint sendFrom (sink : Sink) (target : string) (n i : nat)
         (rest : list string) : Result unit * list Event :=
  match rest with
  | [] => (Ok tt, [])
  | chunk :: rest' =>
      let req := request target chunk in
      match check (sink i req) with
      | Ok _ =>
          let pause := if (i <? n - 1)%nat then [Sleep 300%N] else [] in
          let (r, evs) := sendFrom sink target n (i + 1) rest' in
          (r, Fetch req :: (pause ++ evs)%list)
      | Throw error =>
          (Throw error,
           [Fetch req;
            ConsoleError ("Failed to send chunk " ++ dec (i + 1) ++ "/" ++ dec n)
                         error])
      end
  end.

Definition sendToWeCom (sink : Sink) (webhookUrl content : string)
  : Result unit * list Event :=
  let chunks := chunksOf content in
  sendFrom sink (targetUrl webhookUrl) (List.length chunks) 0 chunks.

(** The requests of a trace, in order. *)
Fixpoint fetches (evs : list Event) : list Request :=
  match evs with
  | [] => []
  | Fetch req :: evs' => req :: fetches evs'
  | _ :: evs' => fetches evs'
  end.

(** The trace of a delivery whose chunks [before] went through and whose
    chunk [failed], at index [k] of [n], was answered with [e]. *)
Definition abortedTrace (target : string) (before : list string)
           (failed : string) (k n : nat) (e : Error) : list Event :=
  (flat_map (fun c => [Fetch (request target c); Sleep 300%N]) before
   ++ [Fetch (request target failed);
       ConsoleError ("Failed to send chunk " ++ dec (k + 1) ++ "/" ++ dec n) e])%list.

(** In the delivery of [content], chunk [k] is the first whose send fails,
    with error [e]: by a rejected [fetch], a status that is not a
    success, an unreadable body or an [errcode] other than [0]. *)
Definition failsAt (sink : Sink) (webhookUrl content : string) (k : nat)
           (e : Error) : Prop :=
  let cs := chunksOf content in
  let t := targetUrl webhookUrl in
  k < List.length cs
  /\ (forall i, i < k -> check (sink i (request t (nth i cs ""))) = Ok tt)
  /\ check (sink k (request t (nth k cs ""))) = Throw e.

(** A sink that accepts everything: status 200 and [errcode] 0. *)
Definition accepting : Sink :=
  fun _ _ => Responded (mkResponse true 200 (Ok "") (Ok (mkData (CodeNum 0) "ok"))).

(** A sink that accepts the first [k] requests and is unreachable from
    then on. *)
Definition unreachableFrom (k : nat) : Sink :=
  fun i req => if (i <? k)%nat then accepting i req
               else Rejected (mkError "Failed to fetch").

(** The console lines of a trace, in order. *)
Fixpoint consoleErrors (evs : list Event) : list (string * Error) :=
  match evs with
  | [] => []
  | ConsoleError msg e :: evs' => (msg, e) :: consoleErrors evs'
  | _ :: evs' => consoleErrors evs'
  end.

(** The trace of a delivery whose chunks all went through: one request per
    chunk, with a pause after each but the last. *)
Fixpoint deliveredTrace (target : string) (cs : list string) : list Event :=
  match cs with
  | [] => []
  | c :: cs' =>
      Fetch (request target c)
      :: match cs' with
         | [] => []
         | _ :: _ => Sleep 300%N :: deliveredTrace target cs'
         end
  end.

(** The pauses of a trace, in order. *)
Fixpoint pauses (evs : list Event) : list N :=
  match evs with
  | [] => []
  | Sleep ms :: evs' => ms :: pauses evs'
  | _ :: evs' => pauses evs'
  end.

(** In the delivery of [content], the sink accepts every chunk. *)
Definition allAccepted (sink : Sink) (webhookUrl content : string) : Prop :=
  let cs := chunksOf content in
  let t := targetUrl webhookUrl in
  forall i, i < List.length cs ->
            check (sink i (request t (nth i cs ""))) = Ok tt.

(** Neighbouring chunks cannot be merged: the first line of each chunk did
    not fit at the end of the chunk before it. *)
Fixpoint tight (M : nat) (cs : list string) : Prop :=
  match cs with
  | [] => True
  | c1 :: tl =>
      match tl with
      | [] => True
      | c2 :: _ =>
          M < String.length c1 + String.length (firstLine c2) + 1
      end
      /\ tight M tl
  end.

(** Loop invariant for [tight]: the chunks are tight and the current chunk,
    or any line still to come when it is empty, did not fit after the last
    chunk. *)
Definition tightAcc (M : nat) (a : Acc) : Prop :=
  tight M (chunks a)
  /\ (chunks a = []
      \/ M < String.length (last (chunks a) "")
             + String.length (firstLine (currentChunk a)) + 1).

(** Chunks, each with the number of line feeds of the content that were
    dropped after it, put back together: a chunk is followed by the line
    feed that separates it from the next chunk and by its dropped line
    feeds; the last chunk by its dropped line feeds only. *)
Fixpoint woven (ps : list (string * nat)) : string :=
  match ps with
  | [] => EmptyString
  | (c, e) :: ps' =>
      match ps' with
      | [] => c ++ LFs e
      | _ :: _ => c ++ NL ++ LFs e ++ woven ps'
      end
  end.

(** Line feeds are dropped after a chunk only when the chunk is full: it
    has reached the limit, so that even an empty line does not fit. *)
Definition gapOK (M : nat) (p : string * nat) : Prop :=
  0 < snd p -> M <= String.length (fst p).

(** The chunks that are closed, each followed by its separator and its
    dropped line feeds. *)
Fixpoint closedText (ps : list (string * nat)) : string :=
  match ps with
  | [] => EmptyString
  | (c, e) :: ps' => c ++ NL ++ LFs e ++ closedText ps'
  end.

(** The text of the lines consumed so far, with the line feed that
    separates it from the next line. *)
Definition consumed (pre : list string) : string :=
  match pre with
  | [] => EmptyString
  | _ :: _ => join NL pre ++ NL
  end.

(** Loop invariant for [woven]: the text consumed is the leading line
    feeds dropped, the closed chunks with the line feeds dropped after
    them, and the current chunk; and when the current chunk is empty, the
    last closed chunk, if there is one, is full. *)
Definition wovenAcc (M : nat) (pre : list string) (a : Acc) : Prop :=
  exists lead ps,
    map fst ps = chunks a
    /\ Forall (gapOK M) ps
    /\ consumed pre
       = LFs lead ++ closedText ps
         ++ (if truthy (currentChunk a) then currentChunk a ++ NL else "")
    /\ (truthy (currentChunk a) = false ->
        ps = []
        \/ exists ps0 c e, ps = (ps0 ++ [(c, e)])%list /\ M <= String.length c).

End WeCom.

(** ** [src/App.tsx] *)

Module App.

(** The component is modelled at the grain of its handlers.  An async
    function is cut at its [await]: the part before it runs with the input
    that calls the function, the part after it ([_resume]) with the input
    that settles the awaited call, and works with the values its closure
    captured at the call.  Every input runs against the state as last
    rendered. *)

(** Modelled from the spec: [types.ts], which declares [BotStatus], is not
    among the sources.  The members are the seven that [App.tsx] names;
    they are the WorkflowStatus of the specification, with [WAITING] for
    Idle and [ERROR] for Failed. *)
Inductive BotStatus :=
| WAITING | SEARCHING | GENERATING | REVIEWING | SENDING | COMPLETED | ERROR.

Definition status_eqb (a b : BotStatus) : bool :=
  match a, b with
  | WAITING, WAITING | SEARCHING, SEARCHING | GENERATING, GENERATING
  | REVIEWING, REVIEWING | SENDING, SENDING | COMPLETED, COMPLETED
  | ERROR, ERROR => true
  | _, _ => false
  end.

Inductive LogType := info | success | warning | error.

(** A log entry.  Its [id] (random) and [timestamp] (wall clock) are left
    out: no decision of the program reads them. *)
Record LogEntry := mkLog { message : string; type : LogType }.

(** The component's state (lines 14-26): the four configuration values,
    the four runtime values and the scheduling ref. *)
Record State := mkState {
  apiKey : string;
  webhookUrl : string;
  autoMode : bool;
  requireConfirmation : bool;
  status : BotStatus;
  logs : list LogEntry;
  lastReport : string;
  countDown : string;
  lastRunDateRef : string
}.

Definition setApiKey (v : string) (s : State) : State :=
  mkState v (webhookUrl s) (autoMode s) (requireConfirmation s) (status s)
          (logs s) (lastReport s) (countDown s) (lastRunDateRef s).
Definition setWebhookUrl (v : string) (s : State) : State :=
  mkState (apiKey s) v (autoMode s) (requireConfirmation s) (status s)
          (logs s) (lastReport s) (countDown s) (lastRunDateRef s).
Definition setAutoMode (v : bool) (s : State) : State :=
  mkState (apiKey s) (webhookUrl s) v (requireConfirmation s) (status s)
          (logs s) (lastReport s) (countDown s) (lastRunDateRef s).
Definition setRequireConfirmation (v : bool) (s : State) : State :=
  mkState (apiKey s) (webhookUrl s) (autoMode s) v (status s)
          (logs s) (lastReport s) (countDown s) (lastRunDateRef s).
Definition setStatus (v : BotStatus) (s : State) : State :=
  mkState (apiKey s) (webhookUrl s) (autoMode s) (requireConfirmation s) v
          (logs s) (lastReport s) (countDown s) (lastRunDateRef s).
Definition setLogs (v : list LogEntry) (s : State) : State :=
  mkState (apiKey s) (webhookUrl s) (autoMode s) (requireConfirmation s)
          (status s) v (lastReport s) (countDown s) (lastRunDateRef s).
Definition setLastReport (v : string) (s : State) : State :=
  mkState (apiKey s) (webhookUrl s) (autoMode s) (requireConfirmation s)
          (status s) (logs s) v (countDown s) (lastRunDateRef s).
Definition setCountDown (v : string) (s : State) : State :=
  mkState (apiKey s) (webhookUrl s) (autoMode s) (requireConfirmation s)
          (status s) (logs s) (lastReport s) v (lastRunDateRef s).
Definition setLastRunDate (v : string) (s : State) : State :=
  mkState (apiKey s) (webhookUrl s) (autoMode s) (requireConfirmation s)
          (status s) (logs s) (lastReport s) (countDown s) v.

(** [addLog] (lines 29-36): append one entry. *)
Definition addLog (msg : string) (ty : LogType) (s : State) : State :=
  setLogs (logs s ++ [mkLog msg ty])%list s.

(** What a call of [startGeneration] that is waiting for the generation
    has captured: [requireConfirmation] and, through [executeSend],
    [webhookUrl]. *)
Record GenCall := mkGenCall {
  genApiKey : string;
  genRequireConfirmation : bool;
  genWebhookUrl : string
}.

(** The arguments of a pending [sendToWeCom]. *)
Record SendCall := mkSendCall { sendUrl : string; sendContent : string }.

(** The component together with what it has set in motion: the pending
    [setTimeout]s (each one is [() => setStatus(BotStatus.WAITING)], kept
    by its delay), the calls awaiting the generation and the delivery, the
    alerts shown and the traffic of the deliveries that have settled. *)
Record World := mkWorld {
  app : State;
  timers : list N;
  generating : list GenCall;
  sending : list SendCall;
  alerts : list string;
  network : list WeCom.Event
}.

Definition onApp (f : State -> State) (w : World) : World :=
  mkWorld (f (app w)) (timers w) (generating w) (sending w) (alerts w)
          (network w).
Definition setTimeout (delay : N) (w : World) : World :=
  mkWorld (app w) (timers w ++ [delay])%list (generating w) (sending w)
          (alerts w) (network w).
Definition awaitGenerate (g : GenCall) (w : World) : World :=
  mkWorld (app w) (timers w) (generating w ++ [g])%list (sending w)
          (alerts w) (network w).
Definition awaitSend (c : SendCall) (w : World) : World :=
  mkWorld (app w) (timers w) (generating w) (sending w ++ [c])%list
          (alerts w) (network w).
Definition alert (msg : string) (w : World) : World :=
  mkWorld (app w) (timers w) (generating w) (sending w)
          (alerts w ++ [msg])%list (network w).
Definition traffic (evs : list WeCom.Event) (w : World) : World :=
  mkWorld (app w) (timers w) (generating w) (sending w) (alerts w)
          (network w ++ evs)%list.

(** [executeSend(content)] with [webhookUrl] as captured, up to the
    [await] (lines 41-44). *)
Definition executeSend (url content : string) (w : World) : World :=
  let w := onApp (setStatus SENDING) w in
  let w := onApp (addLog "Sending report to WeCom..." info) w in
  awaitSend (mkSendCall url content) w.

(** [executeSend] from the point where [sendToWeCom] has settled with [r]
    (lines 45-58). *)
Definition executeSend_resume (r : Result unit) (w : World) : World :=
  match r with
  | Ok _ =>
      let w := onApp (addLog "Successfully pushed to Enterprise WeChat." success) w in
      let w := onApp (setStatus COMPLETED) w in
      let w := onApp (addLog "Workflow complete. Resetting for next cycle." success) w in
      setTimeout 60000%N w
  | Throw e =>
      let w := onApp (setStatus REVIEWING) w in
      let w := onApp (addLog ("Send Failed: " ++ Js.message e
                              ++ ". Please click 'Approve & Send' to retry.")
                             error) w in
      alert ("Failed to send report: " ++ Js.message e ++ NL ++ NL
             ++ "Please check your network or webhook URL and try again.") w
  end.

(** [startGeneration()] up to the [await] (lines 63-80). *)
Definition startGeneration (w : World) : World :=
  let s := app w in
  if status_eqb (status s) SEARCHING || status_eqb (status s) GENERATING
  then w
  else if negb (truthy (apiKey s)) then
    let w := onApp (addLog "API Key missing. Cannot execute workflow." error) w in
    let w := onApp (setStatus ERROR) w in
    setTimeout 5000%N w
  else
    let w := onApp (setStatus SEARCHING) w in
    let w := onApp (addLog "Starting workflow: Scanning data sources..." info) w in
    let w := onApp (setStatus GENERATING) w in
    let w := onApp (addLog "Analysing clinical trials with Gemini 2.5..." info) w in
    awaitGenerate (mkGenCall (apiKey s) (requireConfirmation s) (webhookUrl s)) w.

(** [startGeneration] from the point where [generateWeeklyReport] has
    settled with [r] (lines 81-97). *)
Definition startGeneration_resume (g : GenCall) (r : Result string)
           (w : World) : World :=
  match r with
  | Ok reportContent =>
      let w := onApp (setLastReport reportContent) w in
      let w := onApp (addLog "Report generated. Preparing for review." success) w in
      if genRequireConfirmation g then
        let w := onApp (setStatus REVIEWING) w in
        onApp (addLog "Paused for manual review. Please approve to send." warning) w
      else
        executeSend (genWebhookUrl g) reportContent w
  | Throw e =>
      let w := onApp (setStatus ERROR) w in
      let w := onApp (addLog ("Generation Error: " ++ Js.message e) error) w in
      setTimeout 60000%N w
  end.

(** The four readings the scheduler takes from [new Date()]. *)
Record Now := mkNow {
  getDay : nat;
  getHours : nat;
  getMinutes : nat;
  dateKey : string
}.

Definition isFriday (now : Now) : bool := (getDay now =? 5)%nat.
Definition isTimeWindow (now : Now) : bool :=
  ((getHours now =? 16) && (getMinutes now =? 30))%nat.

(** The countdown text (lines 113-123). *)
Definition nextRunText (now : Now) : string :=
  let hour := getHours now in
  let minute := getMinutes now in
  if isFriday now then
    if ((hour <? 16) || ((hour =? 16) && (minute <? 30)))%nat then
      let diffMins := ((16 * 60 + 30) - (hour * 60 + minute))%nat in
      if (diffMins <? 60)%nat then "Starts in " ++ dec diffMins ++ " mins"
      else "Today at 16:30"
    else if ((16 <? hour) || ((hour =? 16) && (30 <? minute)))%nat then
      "Next run: Next Friday"
    else "Running Scheduled Task..."
  else "Next run: Friday 16:30".

(** The condition of the trigger (lines 127-133). *)
Definition triggers (s : State) (now : Now) : bool :=
  autoMode s && isFriday now && isTimeWindow now
  && negb (lastRunDateRef s =? dateKey now)
  && status_eqb (status s) WAITING.

(** One run of the interval callback (lines 102-138). *)
Definition tick (now : Now) (w : World) : World :=
  let w := onApp (setCountDown (nextRunText now)) w in
  if triggers (app w) now then
    let w := onApp (addLog ("Auto-Scheduler triggered for " ++ dateKey now) warning) w in
    let w := onApp (setLastRunDate (dateKey now)) w in
    startGeneration w
  else w.

(** What the page offers (lines 243-284): in [REVIEWING] the buttons
    "Approve & Send" and "Regenerate"; otherwise "Run Now", disabled
    unless the status is [WAITING], [COMPLETED] or [ERROR], and the timer
    switch. *)
Definition approveOffered (s : State) : bool := status_eqb (status s) REVIEWING.
Definition startOffered (s : State) : bool :=
  status_eqb (status s) REVIEWING || status_eqb (status s) WAITING
  || status_eqb (status s) COMPLETED || status_eqb (status s) ERROR.
Definition timerSwitchOffered (s : State) : bool :=
  negb (status_eqb (status s) REVIEWING).

(** What can happen to the page. *)
Inductive Input :=
| Tick (now : Now)
| ClickStart
| ClickApprove
| ClickTimer
| TypeApiKey (v : string)
| TypeWebhookUrl (v : string)
| CheckConfirmation (v : bool)
| GenerationSettles (i : nat) (r : Result string)
| SendSettles (i : nat) (sink : WeCom.Sink)
| TimeoutFires (i : nat).

Fixpoint dropNth {A : Type} (i : nat) (l : list A) : list A :=
  match l, i with
  | [], _ => []
  | _ :: l', 0 => l'
  | x :: l', S i' => x :: dropNth i' l'
  end.

Definition setTimers (v : list N) (w : World) : World :=
  mkWorld (app w) v (generating w) (sending w) (alerts w) (network w).
Definition setGenerating (v : list GenCall) (w : World) : World :=
  mkWorld (app w) (timers w) v (sending w) (alerts w) (network w).
Definition setSending (v : list SendCall) (w : World) : World :=
  mkWorld (app w) (timers w) (generating w) v (alerts w) (network w).

(** One input, when the page can take it: a click needs its button, a
    settlement its pending call, a timeout its pending timer. *)
Definition step (w : World) (i : Input) : option World :=
  match i with
  | Tick now => Some (tick now w)
  | ClickStart =>
      if startOffered (app w) then Some (startGeneration w) else None
  | ClickApprove =>
      if approveOffered (app w)
      then Some (executeSend (webhookUrl (app w)) (lastReport (app w)) w)
      else None
  | ClickTimer =>
      if timerSwitchOffered (app w)
      then Some (onApp (setAutoMode (negb (autoMode (app w)))) w)
      else None
  | TypeApiKey v => Some (onApp (setApiKey v) w)
  | TypeWebhookUrl v => Some (onApp (setWebhookUrl v) w)
  | CheckConfirmation v => Some (onApp (setRequireConfirmation v) w)
  | GenerationSettles k r =>
      match nth_error (generating w) k with
      | Some g =>
          Some (startGeneration_resume g r
                  (setGenerating (dropNth k (generating w)) w))
      | None => None
      end
  | SendSettles k sink =>
      match nth_error (sending w) k with
      | Some c =>
          let (r, evs) := WeCom.sendToWeCom sink (sendUrl c) (sendContent c) in
          Some (executeSend_resume r
                  (traffic evs (setSending (dropNth k (sending w)) w)))
      | None => None
      end
  | TimeoutFires k =>
      match nth_error (timers w) k with
      | Some _ =>
          Some (onApp (setStatus WAITING) (setTimers (dropNth k (timers w)) w))
      | None => None
      end
  end.

(** A sequence of inputs; [None] when one of them cannot be taken. *)
Fixpoint run (w : World) (inputs : list Input) : option World :=
  match inputs with
  | [] => Some w
  | i :: is' =>
      match step w i with
      | Some w' => run w' is'
      | None => None
      end
  end.

(** The world a sequence of inputs leads to (the world itself when the
    sequence cannot be taken). *)
Definition after (w : World) (inputs : list Input) : World :=
  match run w inputs with
  | Some w' => w'
  | None => w
  end.

(** The number of ticks of a run at which the trigger held, that is,
    which called [startGeneration()]. *)
Fixpoint autoFires (w : World) (inputs : list Input) : nat :=
  match inputs with
  | [] => 0
  | i :: is' =>
      match step w i with
      | Some w' =>
          (match i with
           | Tick now => if triggers (app w) now then 1 else 0
           | _ => 0
           end) + autoFires w' is'
      | None => 0
      end
  end.

(** An input that, if it is a tick, reads the day [d] from the clock. *)
Definition onDay (d : string) (i : Input) : Prop :=
  match i with
  | Tick now => dateKey now = d
  | _ => True
  end.

(** An input other than the firing of a timeout. *)
Definition notTimeout (i : Input) : Prop :=
  match i with
  | TimeoutFires _ => False
  | _ => True
  end.

(** The page as mounted (lines 14-26), for the credential of the
    environment and the default address of [constants.ts]. *)
Definition initial (key webhookDefault : string) : World :=
  mkWorld (mkState key webhookDefault true true WAITING [] "" "--:--:--" "")
          [] [] [] [] [].

(** The minute of the day the clock reads. *)
Definition minuteOfDay (now : Now) : nat := getHours now * 60 + getMinutes now.

(** An input that only edits the configuration. *)
Definition isEdit (i : Input) : Prop :=
  match i with
  | ClickTimer | TypeApiKey _ | TypeWebhookUrl _ | CheckConfirmation _ => True
  | _ => False
  end.

(** An input other than a generation that settles with a report. *)
Definition notNewReport (i : Input) : Prop :=
  match i with
  | GenerationSettles _ (Ok _) => False
  | _ => True
  end.

(** At most one call is in flight, and the status tells which: a
    generation in [GENERATING], a delivery in [SENDING], none otherwise;
    [SEARCHING] is never a status an input finds. *)
Definition oneAtATime (w : World) : Prop :=
  match status (app w) with
  | GENERATING => List.length (generating w) = 1 /\ sending w = []
  | SENDING => generating w = [] /\ List.length (sending w) = 1
  | SEARCHING => False
  | _ => generating w = [] /\ sending w = []
  end.

End App.

(** * Properties *)

(** ** Strings, lines and joins *)

Section Strings.

Lemma append_nil_r (s : string) : s ++ "" = s.
Proof. induction s as [|c s IH]; simpl; [reflexivity | now rewrite IH]. Qed.

Lemma append_assoc (a b c : string) : (a ++ b) ++ c = a ++ (b ++ c).
Proof. induction a as [|x a IH]; simpl; [reflexivity | now rewrite IH]. Qed.

Lemma length_append (a b : string) :
  String.length (a ++ b) = String.length a + String.length b.
Proof. induction a as [|x a IH]; simpl; [reflexivity | now rewrite IH]. Qed.

Lemma truthy_false (s : string) : truthy s = false -> s = "".
Proof. destruct s; [reflexivity | discriminate]. Qed.

Lemma truthy_append_l (a b : string) : truthy a = true -> truthy (a ++ b) = true.
Proof. destruct a; [discriminate | reflexivity]. Qed.

Lemma split_nl_not_nil (s : string) : split_nl s <> [].
Proof.
  induction s as [|c s IH]; simpl; [discriminate|].
  destruct (Ascii.eqb c LF); [discriminate|].
  destruct (split_nl s); discriminate.
Qed.

Lemma join_split_nl (s : string) : join NL (split_nl s) = s.
Proof.
  induction s as [|c s IH]; [reflexivity|].
  simpl. destruct (Ascii.eqb_spec c LF) as [->|Hc].
  - pose proof (split_nl_not_nil s) as Hne.
    unfold join in *. simpl.
    destruct (split_nl s) as [|l ls]; [contradiction|].
    now rewrite IH.
  - pose proof (split_nl_not_nil s) as Hne.
    destruct (split_nl s) as [|l ls]; [contradiction|].
    unfold join in *. simpl in *.
    destruct ls; simpl in *; now rewrite IH.
Qed.

Lemma split_nl_lines (s : string) : Forall (fun l => hasLF l = false) (split_nl s).
Proof.
  induction s as [|c s IH]; simpl.
  - constructor; [reflexivity | constructor].
  - destruct (Ascii.eqb c LF) eqn:Hc.
    + constructor; [reflexivity | assumption].
    + destruct (split_nl s) as [|l ls]; simpl.
      * constructor; [simpl; now rewrite Hc | constructor].
      * inversion IH; subst. constructor; [simpl; now rewrite Hc | assumption].
Qed.

Lemma split_nl_single (s : string) : hasLF s = false -> split_nl s = [s].
Proof.
  induction s as [|c s IH]; simpl; [reflexivity|].
  destruct (Ascii.eqb c LF); simpl; [discriminate|].
  intros H. now rewrite (IH H).
Qed.

Lemma split_nl_append (a b : string) :
  split_nl (a ++ NL ++ b) = (split_nl a ++ split_nl b)%list.
Proof.
  induction a as [|c a IH]; simpl; [reflexivity|].
  destruct (Ascii.eqb c LF); simpl.
  - now rewrite <- IH.
  - simpl in IH. rewrite IH.
    pose proof (split_nl_not_nil a) as Hne.
    destruct (split_nl a); [contradiction | reflexivity].
Qed.

Lemma join_snoc (sep : string) (xs : list string) (y : string) :
  xs <> [] -> join sep (xs ++ [y]) = join sep xs ++ sep ++ y.
Proof.
  unfold join. induction xs as [|x xs IH]; [congruence|]. intros _.
  destruct xs as [|x' xs]; [reflexivity|].
  change (x ++ sep ++ String.concat sep ((x' :: xs) ++ [y])
          = (x ++ sep ++ String.concat sep (x' :: xs)) ++ sep ++ y).
  rewrite IH by discriminate. now rewrite !append_assoc.
Qed.

Lemma join_last_append (sep : string) (xs : list string) (y z : string) :
  join sep (xs ++ [y ++ z]) = join sep (xs ++ [y]) ++ z.
Proof.
  destruct xs as [|x xs]; [reflexivity|].
  rewrite !join_snoc by discriminate. now rewrite !append_assoc.
Qed.

Lemma flat_map_split_join (xs : list string) :
  xs <> [] -> split_nl (join NL xs) = flat_map split_nl xs.
Proof.
  induction xs as [|x xs IH]; [congruence|]. intros _.
  destruct xs as [|x' xs].
  - simpl. now rewrite app_nil_r.
  - change (join NL (x :: x' :: xs)) with (x ++ NL ++ join NL (x' :: xs)).
    rewrite split_nl_append, IH by discriminate. reflexivity.
Qed.

(** A loop invariant for [fold_left]: [P pre a] relates the elements
    consumed so far to the accumulator. *)
Lemma fold_left_invariant {A B : Type} (f : A -> B -> A)
      (Q : B -> Prop) (P : list B -> A -> Prop) :
  (forall pre x a, Q x -> P pre a -> P (pre ++ [x])%list (f a x)) ->
  forall l pre a, Forall Q l -> P pre a -> P (pre ++ l)%list (fold_left f l a).
Proof.
  intros Hstep. induction l as [|x l IH]; intros pre a HQ HP; simpl.
  - now rewrite app_nil_r.
  - inversion HQ; subst.
    replace (pre ++ x :: l)%list with ((pre ++ [x]) ++ l)%list
      by (now rewrite <- app_assoc).
    apply IH; [assumption|]. now apply Hstep.
Qed.

End Strings.

(** ** The split *)

Section Split.

Import WeCom.

Variable M : nat.

Lemma pushIfAny_empty (cs : list string) : pushIfAny cs "" = cs.
Proof. reflexivity. Qed.

Lemma pushIfAny_truthy (cs : list string) (c : string) :
  truthy c = true -> pushIfAny cs c = (cs ++ [c])%list.
Proof. unfold pushIfAny. now intros ->. Qed.

Lemma filter_lines_push (cs : list string) (c : string) :
  hasLF c = false ->
  filter truthy (flat_map split_nl (pushIfAny cs c))
  = (filter truthy (flat_map split_nl cs) ++ filter truthy [c])%list.
Proof.
  intros Hc. unfold pushIfAny. destruct (truthy c) eqn:Ht.
  - rewrite flat_map_app, filter_app. simpl.
    rewrite (split_nl_single c Hc). simpl. now rewrite Ht.
  - simpl. rewrite Ht. now rewrite app_nil_r.
Qed.

(** The non-empty lines of what has been built are those consumed. *)
Lemma addLine_lines (pre : list string) (line : string) (a : Acc) :
  hasLF line = false ->
  filter truthy (flat_map split_nl (pushIfAny (chunks a) (currentChunk a)))
  = filter truthy pre ->
  filter truthy (flat_map split_nl
                   (pushIfAny (chunks (addLine M a line))
                              (currentChunk (addLine M a line))))
  = filter truthy (pre ++ [line]).
Proof.
  intros Hl IH. rewrite filter_app, <- IH. unfold addLine.
  destruct (M <? _)%nat; simpl.
  - now apply filter_lines_push.
  - destruct (truthy (currentChunk a)) eqn:Hc.
    + rewrite !pushIfAny_truthy
        by (try apply truthy_append_l; assumption).
      rewrite !flat_map_app, !filter_app.
      cbn [flat_map]. change (String LF line) with (NL ++ line).
      rewrite split_nl_append, (split_nl_single line Hl).
      rewrite !app_nil_r. now rewrite filter_app, app_assoc.
    + apply truthy_false in Hc. rewrite Hc, pushIfAny_empty.
      now apply filter_lines_push.
Qed.

Lemma split_lines (content : string) :
  filter truthy (flat_map split_nl (split M content)) = nonEmptyLines content.
Proof.
  unfold split, nonEmptyLines.
  apply (fold_left_invariant (addLine M) (fun l => hasLF l = false)
           (fun pre a =>
              filter truthy (flat_map split_nl
                               (pushIfAny (chunks a) (currentChunk a)))
              = filter truthy pre)
           (fun pre x a => addLine_lines pre x a)
           (split_nl content) [] start (split_nl_lines content)).
  reflexivity.
Qed.

(** Every chunk built is within the limit or is one whole line. *)
Lemma addLine_limit (content line : string) (a : Acc) :
  In line (split_nl content) ->
  Forall (withinLimit M content) (chunks a)
  /\ withinLimit M content (currentChunk a) ->
  Forall (withinLimit M content) (chunks (addLine M a line))
  /\ withinLimit M content (currentChunk (addLine M a line)).
Proof.
  intros Hin [Hcs Hcur]. unfold addLine.
  destruct (Nat.ltb_spec M (String.length (currentChunk a)
                            + String.length line + 1)) as [Hlt|Hge]; simpl.
  - split.
    + unfold pushIfAny. destruct (truthy (currentChunk a)); [|assumption].
      apply Forall_app. split; [assumption | now constructor].
    + destruct (Nat.le_gt_cases (String.length line) M) as [Hle|Hgt];
        [now left | right; now split].
  - split; [assumption|]. left.
    destruct (truthy (currentChunk a)); [|lia].
    rewrite !length_append. simpl. lia.
Qed.

Lemma split_limit (content : string) :
  Forall (withinLimit M content) (split M content).
Proof.
  unfold split.
  assert (H : Forall (withinLimit M content)
                (chunks (fold_left (addLine M) (split_nl content) start))
              /\ withinLimit M content
                   (currentChunk (fold_left (addLine M) (split_nl content) start))).
  { apply (fold_left_invariant (addLine M)
             (fun l => In l (split_nl content))
             (fun _ a => Forall (withinLimit M content) (chunks a)
                         /\ withinLimit M content (currentChunk a))
             (fun _ x a => addLine_limit content x a)
             (split_nl content) [] start).
    - apply Forall_forall. auto.
    - split; [constructor | left; simpl; lia]. }
  destruct H as [Hcs Hcur]. unfold pushIfAny.
  destruct (truthy _); [|assumption].
  apply Forall_app. split; [assumption | now constructor].
Qed.

Lemma addLine_joins (pre : list string) (line : string) (a : Acc) :
  truthy line = true -> joins pre a -> joins (pre ++ [line]) (addLine M a line).
Proof.
  intros Hl [[-> ->]|(Hpre & Hcur & Hj)]; right.
  - split; [discriminate|]. unfold addLine. simpl.
    destruct (M <? _)%nat; simpl; auto.
  - split; [now destruct pre|]. unfold addLine.
    destruct (M <? _)%nat; simpl.
    + split; [assumption|].
      rewrite (pushIfAny_truthy _ _ Hcur).
      rewrite (join_snoc NL (chunks a ++ [currentChunk a]))
        by (now destruct (chunks a)).
      now rewrite (join_snoc NL pre), Hj.
    + rewrite Hcur. split; [now apply truthy_append_l|].
      rewrite join_last_append, Hj. now rewrite (join_snoc NL pre).
Qed.

Lemma split_joins (content : string) :
  noEmptyLine content = true -> join NL (split M content) = content.
Proof.
  intros Hne. unfold split.
  assert (H : joins (split_nl content)
                    (fold_left (addLine M) (split_nl content) start)).
  { apply (fold_left_invariant (addLine M) (fun l => truthy l = true) joins
             addLine_joins (split_nl content) [] start).
    - apply Forall_forall. intros l Hin.
      unfold noEmptyLine in Hne. rewrite forallb_forall in Hne. auto.
    - now left. }
  destruct H as [[Hnil _]|(_ & Hcur & Hj)].
  - now destruct (split_nl_not_nil content).
  - rewrite (pushIfAny_truthy _ _ Hcur), Hj. apply join_split_nl.
Qed.

(** Every chunk is made of whole lines of the content. *)
Lemma addLine_wholeLines (content line : string) (a : Acc) :
  In line (split_nl content) ->
  Forall (wholeLines content) (chunks a)
  /\ (truthy (currentChunk a) = true -> wholeLines content (currentChunk a)) ->
  Forall (wholeLines content) (chunks (addLine M a line))
  /\ (truthy (currentChunk (addLine M a line)) = true ->
      wholeLines content (currentChunk (addLine M a line))).
Proof.
  intros Hin [Hcs Hcur].
  assert (Hline : wholeLines content line).
  { unfold wholeLines.
    rewrite (split_nl_single line).
    - intros x [<-|[]]. assumption.
    - pose proof (split_nl_lines content) as H.
      rewrite Forall_forall in H. auto. }
  unfold addLine. destruct (M <? _)%nat; simpl.
  - split; [|auto]. unfold pushIfAny.
    destruct (truthy (currentChunk a)); [|assumption].
    apply Forall_app. split; [assumption | constructor; auto].
  - split; [assumption|].
    destruct (truthy (currentChunk a)); [|auto]. intros _.
    unfold wholeLines. change (String LF line) with (NL ++ line).
    rewrite split_nl_append. apply incl_app; [now apply Hcur | exact Hline].
Qed.

Lemma split_wholeLines (content : string) :
  Forall (wholeLines content) (split M content).
Proof.
  unfold split.
  assert (H : Forall (wholeLines content)
                (chunks (fold_left (addLine M) (split_nl content) start))
              /\ (truthy (currentChunk
                            (fold_left (addLine M) (split_nl content) start))
                  = true ->
                  wholeLines content
                    (currentChunk
                       (fold_left (addLine M) (split_nl content) start)))).
  { apply (fold_left_invariant (addLine M)
             (fun l => In l (split_nl content))
             (fun _ a => Forall (wholeLines content) (chunks a)
                         /\ (truthy (currentChunk a) = true ->
                             wholeLines content (currentChunk a)))
             (fun _ x a => addLine_wholeLines content x a)
             (split_nl content) [] start).
    - apply Forall_forall. auto.
    - split; [constructor | discriminate]. }
  destruct H as [Hcs Hcur]. unfold pushIfAny.
  destruct (truthy _); [|assumption].
  apply Forall_app. split; [assumption | constructor; auto].
Qed.

(** No chunk is empty. *)
Lemma addLine_truthy (line : string) (a : Acc) :
  Forall (fun c => truthy c = true) (chunks a) ->
  Forall (fun c => truthy c = true) (chunks (addLine M a line)).
Proof.
  intros H. unfold addLine. destruct (M <? _)%nat; simpl; [|assumption].
  unfold pushIfAny. destruct (truthy (currentChunk a)) eqn:Hc; [|assumption].
  apply Forall_app. split; [assumption | now constructor].
Qed.

Lemma split_truthy (content : string) :
  Forall (fun c => truthy c = true) (split M content).
Proof.
  unfold split.
  assert (H : Forall (fun c => truthy c = true)
                (chunks (fold_left (addLine M) (split_nl content) start))).
  { apply (fold_left_invariant (addLine M) (fun _ => True)
             (fun _ a => Forall (fun c => truthy c = true) (chunks a))
             (fun _ x a _ => addLine_truthy x a) (split_nl content) [] start).
    - apply Forall_forall. auto.
    - constructor. }
  unfold pushIfAny. destruct (truthy _) eqn:Hc; [|assumption].
  apply Forall_app. split; [assumption | now constructor].
Qed.

(** Content made of line feeds only leaves nothing to send. *)
Lemma split_nl_onlyLF (s : string) :
  onlyLF s = true -> Forall (fun l => l = "") (split_nl s).
Proof.
  induction s as [|c s IH]; simpl.
  - intros _. now constructor.
  - destruct (Ascii.eqb c LF); simpl; [|discriminate].
    intros H. constructor; auto.
Qed.

Lemma fold_addLine_empty (ls : list string) :
  Forall (fun l => l = "") ls -> fold_left (addLine M) ls start = start.
Proof.
  induction 1 as [|l ls -> _ IH]; [reflexivity|].
  simpl. unfold addLine at 2. simpl.
  destruct (M <? 1)%nat; exact IH.
Qed.

Lemma split_onlyLF (content : string) :
  onlyLF content = true -> split M content = [].
Proof.
  intros H. unfold split.
  now rewrite (fold_addLine_empty _ (split_nl_onlyLF _ H)).
Qed.

End Split.

(** ** The transmission *)

Section Transmission.

Import WeCom.

Variable sink : Sink.
Variable target : string.

Lemma fetches_app (a b : list Event) :
  fetches (a ++ b) = (fetches a ++ fetches b)%list.
Proof.
  induction a as [|[req|ms|msg e] a IH]; simpl; [reflexivity | | assumption..].
  now rewrite IH.
Qed.

Lemma consoleErrors_app (a b : list Event) :
  consoleErrors (a ++ b) = (consoleErrors a ++ consoleErrors b)%list.
Proof.
  induction a as [|[req|ms|msg e] a IH]; simpl; [reflexivity | assumption.. |].
  now rewrite IH.
Qed.

(** The requests of a delivery are those of the first chunks, in order. *)
Lemma sendFrom_fetches (n : nat) (rest : list string) :
  forall i, exists k,
    k <= List.length rest
    /\ fetches (snd (sendFrom sink target n i rest))
       = map (request target) (firstn k rest).
Proof.
  induction rest as [|chunk rest IH]; intros i; simpl.
  - exists 0. split; [lia | reflexivity].
  - destruct (check _).
    + destruct (IH (i + 1)) as (k & Hk & Hf).
      destruct (sendFrom sink target n (i + 1) rest) as [r evs].
      exists (S k). split; [lia|]. simpl in *.
      rewrite fetches_app, <- Hf.
      destruct (i <? n - 1)%nat; reflexivity.
    + exists 1. split; [lia | reflexivity].
Qed.

(** A delivery whose first failure is at offset [k] of the chunks left. *)
Lemma sendFrom_abort (n : nat) (rest : list string) :
  forall i k e,
    i + List.length rest = n ->
    k < List.length rest ->
    (forall j, j < k ->
               check (sink (i + j) (request target (nth j rest ""))) = Ok tt) ->
    check (sink (i + k) (request target (nth k rest ""))) = Throw e ->
    sendFrom sink target n i rest
    = (Throw e,
       abortedTrace target (firstn k rest) (nth k rest "") (i + k) n e).
Proof.
  induction rest as [|chunk rest IH]; intros i k e Hn Hk Hok Hfail;
    simpl in Hk; [lia|].
  destruct k as [|k].
  - simpl. rewrite Nat.add_0_r in Hfail. simpl in Hfail. rewrite Hfail.
    unfold abortedTrace. simpl. now rewrite Nat.add_0_r.
  - simpl in Hn. cbn [sendFrom].
    pose proof (Hok 0 ltac:(lia)) as H0.
    rewrite Nat.add_0_r in H0. simpl in H0. rewrite H0.
    rewrite (IH (i + 1) k e); try lia.
    + replace (i <? n - 1)%nat with true
        by (symmetry; apply Nat.ltb_lt; lia).
      unfold abortedTrace. simpl.
      now replace (i + 1 + k) with (i + S k) by lia.
    + intros j Hj. specialize (Hok (S j) ltac:(lia)).
      now replace (i + 1 + j) with (i + S j) by lia.
    + now replace (i + 1 + k) with (i + S k) by lia.
Qed.

Lemma fetches_abortedTrace (before : list string) (failed : string)
      (k n : nat) (e : Error) :
  fetches (abortedTrace target before failed k n e)
  = map (request target) (before ++ [failed]).
Proof.
  unfold abortedTrace. rewrite fetches_app, map_app. simpl. f_equal.
  induction before as [|c before IH]; simpl; [reflexivity | now rewrite IH].
Qed.

Lemma consoleErrors_abortedTrace (before : list string) (failed : string)
      (k n : nat) (e : Error) :
  consoleErrors (abortedTrace target before failed k n e)
  = [("Failed to send chunk " ++ dec (k + 1) ++ "/" ++ dec n, e)].
Proof.
  unfold abortedTrace. rewrite consoleErrors_app. simpl.
  induction before as [|c before IH]; simpl; [reflexivity | assumption].
Qed.

Lemma firstn_snoc_nth (k : nat) (l : list string) :
  k < List.length l -> (firstn k l ++ [nth k l ""])%list = firstn (S k) l.
Proof.
  revert k. induction l as [|x l IH]; intros k Hk; simpl in Hk; [lia|].
  destruct k as [|k]; [reflexivity|].
  simpl. f_equal. apply IH. lia.
Qed.

End Transmission.

(** ** The split: what the join loses *)

Section SplitWoven.

Import WeCom.

Variable M : nat.

Lemma LFs_snoc (n : nat) : LFs n ++ NL = LFs (S n).
Proof. induction n as [|n IH]; simpl in *; [reflexivity | now rewrite IH]. Qed.

Lemma closedText_app (ps qs : list (string * nat)) :
  closedText (ps ++ qs) = closedText ps ++ closedText qs.
Proof.
  induction ps as [|[c e] ps IH]; [reflexivity|].
  cbn [closedText app]. rewrite IH. now rewrite !append_assoc.
Qed.

Lemma closedText_last (c : string) (e : nat) :
  closedText [(c, e)] = c ++ NL ++ LFs e.
Proof. cbn [closedText]. now rewrite append_nil_r. Qed.

Lemma woven_snoc (ps : list (string * nat)) (c : string) (e : nat) :
  woven (ps ++ [(c, e)]) = closedText ps ++ c ++ LFs e.
Proof.
  induction ps as [|[c' e'] ps IH]; [reflexivity|].
  cbn [app woven closedText]. rewrite IH.
  destruct ps; cbn [app]; now rewrite !append_assoc.
Qed.

Lemma consumed_snoc (pre : list string) (l : string) :
  consumed (pre ++ [l]) = consumed pre ++ l ++ NL.
Proof.
  destruct pre as [|x pre]; [reflexivity|].
  change (consumed ((x :: pre) ++ [l])) with (join NL ((x :: pre) ++ [l]) ++ NL).
  rewrite join_snoc by discriminate. unfold consumed.
  now rewrite !append_assoc.
Qed.

Lemma append_LF_inj (a b : string) : a ++ NL = b ++ NL -> a = b.
Proof.
  revert b. induction a as [|x a IH]; intros [|y b]; simpl; intros H.
  - reflexivity.
  - injection H as _ H. destruct b; discriminate.
  - injection H as _ H. destruct a; discriminate.
  - injection H as -> H. f_equal. now apply IH.
Qed.

Ltac str_norm :=
  repeat (rewrite ?append_assoc, ?append_nil_r; cbn [append NL LFs closedText]).

Lemma addLine_woven (pre : list string) (line : string) (a : Acc) :
  True -> wovenAcc M pre a -> wovenAcc M (pre ++ [line]) (addLine M a line).
Proof.
  intros _ (lead & ps & Hmap & Hok & Htext & Hside).
  unfold wovenAcc. rewrite consumed_snoc, Htext. unfold addLine.
  destruct (truthy (currentChunk a)) eqn:Hcur.
  - (* a chunk is being built *)
    destruct (Nat.ltb_spec M (String.length (currentChunk a)
                              + String.length line + 1)) as [Hlt|Hge];
      cbn [chunks currentChunk].
    + rewrite (pushIfAny_truthy _ _ Hcur).
      destruct (truthy line) eqn:Hl.
      * exists lead, (ps ++ [(currentChunk a, 0)])%list.
        split; [now rewrite map_app, Hmap|].
        split; [apply Forall_app; split;
                [assumption | constructor; [intros H; simpl in H; lia | constructor]]|].
        split; [|discriminate].
        rewrite closedText_app, closedText_last. str_norm. reflexivity.
      * apply truthy_false in Hl. subst line. simpl in Hlt.
        exists lead, (ps ++ [(currentChunk a, 1)])%list.
        split; [now rewrite map_app, Hmap|].
        split; [apply Forall_app; split;
                [assumption | constructor; [intros _; simpl; lia | constructor]]|].
        split.
        -- rewrite closedText_app, closedText_last. str_norm. reflexivity.
        -- intros _. right. exists ps, (currentChunk a), 1.
           split; [reflexivity | lia].
    + exists lead, ps. split; [assumption|]. split; [assumption|].
      rewrite (truthy_append_l _ _ Hcur). split; [|discriminate].
      str_norm. reflexivity.
  - (* no chunk is being built *)
    assert (Hnew : chunks (if (M <? String.length (currentChunk a)
                                   + String.length line + 1)%nat
                           then {| chunks := pushIfAny (chunks a) (currentChunk a);
                                   currentChunk := line |}
                           else {| chunks := chunks a; currentChunk := line |})
                   = chunks a
                   /\ currentChunk
                        (if (M <? String.length (currentChunk a)
                                  + String.length line + 1)%nat
                         then {| chunks := pushIfAny (chunks a) (currentChunk a);
                                 currentChunk := line |}
                         else {| chunks := chunks a; currentChunk := line |})
                      = line).
    { unfold pushIfAny. rewrite Hcur. destruct (M <? _)%nat; auto. }
    destruct Hnew as [Hcs Hc]. rewrite Hcs, Hc.
    destruct (truthy line) eqn:Hl.
    + exists lead, ps. split; [assumption|]. split; [assumption|].
      split; [|discriminate]. str_norm. reflexivity.
    + apply truthy_false in Hl. subst line.
      destruct (Hside eq_refl) as [->|(ps0 & c & e & -> & Hfull)].
      * exists (S lead), []. split; [assumption|]. split; [constructor|].
        split; [|now left]. rewrite <- LFs_snoc. str_norm. reflexivity.
      * exists lead, (ps0 ++ [(c, S e)])%list.
        split; [rewrite <- Hmap, !map_app; reflexivity|].
        apply Forall_app in Hok. destruct Hok as [Hok0 _].
        split; [apply Forall_app; split;
                [assumption | constructor; [intros _; exact Hfull | constructor]]|].
        split.
        -- rewrite !closedText_app, !closedText_last, <- LFs_snoc.
           str_norm. reflexivity.
        -- intros _. right. now exists ps0, c, (S e).
Qed.

Lemma join_woven (cs : list string) :
  join NL cs = woven (map (fun c => (c, 0)) cs).
Proof.
  induction cs as [|c cs IH]; [reflexivity|].
  destruct cs as [|c' cs].
  - simpl. now rewrite append_nil_r.
  - change (join NL (c :: c' :: cs)) with (c ++ NL ++ join NL (c' :: cs)).
    rewrite IH. reflexivity.
Qed.

(** The content is its chunks woven with the line feeds that were
    dropped. *)
Lemma split_woven (content : string) :
  exists lead ps,
    map fst ps = split M content
    /\ Forall (gapOK M) ps
    /\ content = LFs lead ++ woven ps.
Proof.
  assert (H : wovenAcc M (split_nl content)
                (fold_left (addLine M) (split_nl content) start)).
  { apply (fold_left_invariant (addLine M) (fun _ => True) (wovenAcc M)
             addLine_woven (split_nl content) [] start).
    - apply Forall_forall. auto.
    - exists 0, []. repeat split; [constructor | now left]. }
  destruct H as (lead & ps & Hmap & Hok & Htext & Hside).
  assert (Hc : consumed (split_nl content) = content ++ NL).
  { unfold consumed. pose proof (split_nl_not_nil content).
    destruct (split_nl content) eqn:E; [contradiction|].
    rewrite <- E. now rewrite join_split_nl. }
  rewrite Hc in Htext. unfold split.
  destruct (truthy (currentChunk _)) eqn:Hcur.
  - rewrite (pushIfAny_truthy _ _ Hcur).
    exists lead, (ps ++ [(currentChunk (fold_left (addLine M) (split_nl content) start), 0)])%list.
    split; [now rewrite map_app, Hmap|].
    split; [apply Forall_app; split;
            [assumption | constructor; [intros H; simpl in H; lia | constructor]]|].
    rewrite woven_snoc. cbn [LFs]. rewrite append_nil_r.
    apply append_LF_inj. rewrite Htext. now rewrite !append_assoc.
  - unfold pushIfAny. rewrite Hcur.
    destruct (Hside eq_refl) as [->|(ps0 & c & e & -> & Hfull)].
    + cbn [closedText] in Htext. rewrite !append_nil_r in Htext.
      destruct lead as [|lead].
      * destruct content; discriminate.
      * exists lead, []. split; [assumption|]. split; [constructor|].
        cbn [woven]. rewrite append_nil_r. apply append_LF_inj.
        now rewrite LFs_snoc.
    + exists lead, (ps0 ++ [(c, e)])%list.
      split; [assumption|]. split; [assumption|].
      rewrite woven_snoc. apply append_LF_inj. rewrite Htext.
      rewrite closedText_app, closedText_last.
      rewrite !append_assoc, append_nil_r. now rewrite LFs_snoc.
Qed.

Lemma no_gap (ps : list (string * nat)) :
  Forall (gapOK M) ps ->
  Forall (fun c => String.length c < M) (map fst ps) ->
  map (fun p => (fst p, 0)) ps = ps.
Proof.
  induction ps as [|[c e] ps IH]; intros Hok Hshort; [reflexivity|].
  inversion Hok as [|? ? Hg Hok']; inversion Hshort as [|? ? Hs Hshort']; subst.
  simpl. rewrite (IH Hok' Hshort'). f_equal. f_equal.
  unfold gapOK in Hg. simpl in *. lia.
Qed.

End SplitWoven.

(** ** The delivery pipeline: the properties of the specification *)

Section Delivery.

Import WeCom.

Lemma nonEmptyLines_join (cs : list string) :
  nonEmptyLines (join NL cs) = filter truthy (flat_map split_nl cs).
Proof.
  unfold nonEmptyLines. destruct cs as [|c cs]; [reflexivity|].
  now rewrite flat_map_split_join.
Qed.

(** C1, as amended.  Joining the chunks with line feeds gives the content
    back except for line feeds at the start of a chunk.  The content is,
    in order: a run of leading line feeds; the chunks, each followed by the
    line feed that separates it from the next; and, after a chunk, further
    line feeds only when that chunk is full (it has reached the limit, so
    that not even an empty line fits).  The join is the content with those
    leading and further line feeds left out: every other unit, the empty
    lines inside a chunk included, is kept.  So the join is the content
    itself when the content does not start with a line feed and no chunk
    reaches the limit, and when the content has no empty line; and the
    lines that are not empty are always kept, all of them and in order. *)
Theorem split_join_keeps_lines (M : nat) (C : string) :
  (exists lead ps,
     map fst ps = split M C
     /\ Forall (gapOK M) ps
     /\ C = LFs lead ++ woven ps
     /\ join NL (split M C) = woven (map (fun p => (fst p, 0)) ps))
  /\ nonEmptyLines (join NL (split M C)) = nonEmptyLines C
  /\ (noEmptyLine C = true -> join NL (split M C) = C)
  /\ (startsWithLF C = false ->
      Forall (fun chunk => String.length chunk < M) (split M C) ->
      join NL (split M C) = C).
Proof.
  destruct (split_woven M C) as (lead & ps & Hmap & Hok & HC).
  assert (Hjoin : join NL (split M C) = woven (map (fun p => (fst p, 0)) ps)).
  { rewrite <- Hmap, join_woven, map_map. reflexivity. }
  split; [exists lead, ps; auto|].
  split; [rewrite nonEmptyLines_join; apply split_lines|].
  split; [apply split_joins|].
  intros Hstart Hshort. rewrite Hjoin.
  rewrite (no_gap M ps Hok) by (now rewrite Hmap).
  destruct lead as [|lead]; [exact (eq_sym HC)|].
  rewrite HC in Hstart. discriminate.
Qed.

Lemma split_join_keeps_lines_witness :
  noEmptyLine ("# Weekly" ++ NL ++ "- item") = true
  /\ join NL (split CHUNK_SIZE ("# Weekly" ++ NL ++ "- item"))
     = "# Weekly" ++ NL ++ "- item".
Proof.
  split; [reflexivity|].
  apply (proj1 (proj2 (proj2
           (split_join_keeps_lines CHUNK_SIZE ("# Weekly" ++ NL ++ "- item"))))).
  reflexivity.
Defined.

(** C1 fails as stated: a leading line feed, an empty line that follows a
    full chunk, and a trailing line feed that follows a full chunk are
    all dropped by the split with the limit of the code. *)
Lemma split_join_drops_empty_lines :
  join NL (chunksOf (NL ++ "a")) = "a"
  /\ join NL (chunksOf (NL ++ "a")) <> NL ++ "a"
  /\ join NL (chunksOf (repeatStr "x" 1024 ++ NL ++ NL ++ "b"))
     <> repeatStr "x" 1024 ++ NL ++ NL ++ "b"
  /\ join NL (chunksOf (repeatStr "x" 1024 ++ NL))
     <> repeatStr "x" 1024 ++ NL.
Proof.
  repeat split; try reflexivity;
    apply String.eqb_neq; vm_compute; reflexivity.
Qed.

(** C2.  Every chunk is at most [M] long, unless it is one whole line of
    the content that is itself longer than [M]; and no line is broken:
    every line of every chunk is a line of the content, and the lines of
    the chunks that are not empty are, in order, those of the content. *)
Theorem split_chunks_bounded (M : nat) (C : string) :
  Forall (withinLimit M C) (split M C)
  /\ Forall (wholeLines C) (split M C)
  /\ filter truthy (flat_map split_nl (split M C)) = nonEmptyLines C.
Proof.
  split; [apply split_limit|].
  split; [apply split_wholeLines | apply split_lines].
Qed.

(** Which answers count as a success: only a response with a success
    status whose body parses and carries [errcode] 0. *)
Lemma check_Ok (o : FetchOutcome) :
  check o = Ok tt
  <-> exists r d, o = Responded r /\ ok r = true /\ json r = Ok d
                  /\ isZero (errcode d) = true.
Proof.
  split.
  - destruct o as [e|r]; simpl; [discriminate|].
    destruct (ok r) eqn:Hok; simpl.
    + destruct (json r) as [d|e] eqn:Hj; simpl; [|discriminate].
      destruct (isZero (errcode d)) eqn:Hz; simpl; [|discriminate].
      intros _. now exists r, d.
    + destruct (text r); discriminate.
  - intros (r & d & -> & Hok & Hj & Hz). simpl. now rewrite Hok, Hj; simpl; rewrite Hz.
Qed.

(** C3, as amended.  When chunk [k] is the first whose send fails, the
    chunks 0 to [k] are posted, in order, and no other; the caller gets
    the underlying error itself, unchanged; the index (counted from 1)
    and the number of chunks go to the console only. *)
Theorem delivery_aborts_at_first_failure (sink : Sink)
        (webhookUrl content : string) (k : nat) (e : Error) :
  failsAt sink webhookUrl content k e ->
  fst (sendToWeCom sink webhookUrl content) = Throw e
  /\ fetches (snd (sendToWeCom sink webhookUrl content))
     = map (request (targetUrl webhookUrl)) (firstn (k + 1) (chunksOf content))
  /\ consoleErrors (snd (sendToWeCom sink webhookUrl content))
     = [("Failed to send chunk " ++ dec (k + 1) ++ "/"
         ++ dec (List.length (chunksOf content)), e)].
Proof.
  intros (Hk & Hok & Hfail). unfold sendToWeCom.
  rewrite (sendFrom_abort sink (targetUrl webhookUrl)
             (List.length (chunksOf content)) (chunksOf content) 0 k e);
    try assumption; try reflexivity.
  simpl fst. simpl snd.
  rewrite fetches_abortedTrace, consoleErrors_abortedTrace.
  rewrite firstn_snoc_nth by assumption.
  replace (S k) with (k + 1) by lia. auto.
Qed.

Lemma delivery_aborts_at_first_failure_witness :
  fst (sendToWeCom (unreachableFrom 1) "hook"
         (repeatStr "x" 600 ++ NL ++ repeatStr "y" 600 ++ NL ++ repeatStr "z" 600))
  = Throw (mkError "Failed to fetch").
Proof.
  apply (delivery_aborts_at_first_failure (unreachableFrom 1) "hook"
           (repeatStr "x" 600 ++ NL ++ repeatStr "y" 600 ++ NL ++ repeatStr "z" 600)
           1 (mkError "Failed to fetch")).
  split; [vm_compute; lia|].
  split; [|reflexivity].
  intros i Hi. assert (i = 0) as -> by lia. reflexivity.
Defined.

(** C3 fails as stated: the error the caller gets does not tell the
    failing index or the number of chunks.  An unreachable sink gives the
    very same error whether it fails chunk 0 of 1 or chunk 1 of 2. *)
Lemma delivery_error_has_no_index :
  let one := "a" in
  let two := repeatStr "x" 600 ++ NL ++ repeatStr "y" 600 in
  failsAt (unreachableFrom 0) "hook" one 0 (mkError "Failed to fetch")
  /\ failsAt (unreachableFrom 1) "hook" two 1 (mkError "Failed to fetch")
  /\ List.length (chunksOf one) = 1 /\ List.length (chunksOf two) = 2
  /\ fst (sendToWeCom (unreachableFrom 0) "hook" one)
     = fst (sendToWeCom (unreachableFrom 1) "hook" two)
  /\ ~ (exists indexOf : Error -> nat,
          forall sink webhookUrl content k e,
            failsAt sink webhookUrl content k e ->
            exists e', fst (sendToWeCom sink webhookUrl content) = Throw e'
                       /\ indexOf e' = k).
Proof.
  intros one two.
  assert (H0 : failsAt (unreachableFrom 0) "hook" one 0 (mkError "Failed to fetch")).
  { split; [vm_compute; lia|]. split; [intros i Hi; lia | reflexivity]. }
  assert (H1 : failsAt (unreachableFrom 1) "hook" two 1 (mkError "Failed to fetch")).
  { split; [vm_compute; lia|]. split; [|reflexivity].
    intros i Hi. assert (i = 0) as -> by lia. reflexivity. }
  split; [exact H0|]. split; [exact H1|].
  split; [reflexivity|]. split; [reflexivity|]. split; [reflexivity|].
  intros [indexOf H].
  destruct (H _ _ _ _ _ H0) as (e0 & He0 & Hi0).
  destruct (H _ _ _ _ _ H1) as (e1 & He1 & Hi1).
  assert (Hsame : fst (sendToWeCom (unreachableFrom 0) "hook" one)
                  = fst (sendToWeCom (unreachableFrom 1) "hook" two))
    by reflexivity.
  rewrite He0, He1 in Hsame. injection Hsame as ->. lia.
Qed.

Lemma posted_prefix (sink : Sink) (webhookUrl content : string) :
  exists k,
    k <= List.length (chunksOf content)
    /\ fetches (snd (sendToWeCom sink webhookUrl content))
       = map (request (targetUrl webhookUrl)) (firstn k (chunksOf content)).
Proof.
  unfold sendToWeCom. apply sendFrom_fetches.
Qed.

(** A delivery with something to send starts with the first chunk. *)
Lemma posted_prefix_first (sink : Sink) (webhookUrl content : string) :
  exists k,
    k <= List.length (chunksOf content)
    /\ (chunksOf content <> [] -> 1 <= k)
    /\ fetches (snd (sendToWeCom sink webhookUrl content))
       = map (request (targetUrl webhookUrl)) (firstn k (chunksOf content)).
Proof.
  unfold sendToWeCom.
  destruct (chunksOf content) as [|c cs].
  - exists 0. repeat split; [lia | congruence].
  - cbn [sendFrom List.length].
    destruct (check (sink 0 (request (targetUrl webhookUrl) c))).
    + destruct (sendFrom_fetches sink (targetUrl webhookUrl)
                  (S (List.length cs)) cs (0 + 1)) as (k & Hk & Hf).
      destruct (sendFrom sink (targetUrl webhookUrl) (S (List.length cs))
                         (0 + 1) cs) as [r evs].
      exists (S k). split; [lia|]. split; [lia|].
      simpl in *. rewrite fetches_app, <- Hf.
      destruct (0 <? List.length cs - 0)%nat; reflexivity.
    + exists 1. repeat split; lia.
Qed.

(** C9, as amended.  The requests of a delivery are, for the first chunks
    in order, a POST to the proxy address followed by the encoded webhook
    address, with a JSON content type, whose body is the object
    [{msgtype: "markdown", markdown: {content: <chunk>}}]. *)
Theorem posted_requests (sink : Sink) (webhookUrl content : string) :
  exists k,
    k <= List.length (chunksOf content)
    /\ fetches (snd (sendToWeCom sink webhookUrl content))
       = map (fun chunk =>
                {| url := "https://corsproxy.io/?" ++ encodeURIComponent webhookUrl;
                   method := "POST";
                   headers := [("Content-Type", "application/json")];
                   body := JObject
                             [("msgtype", JString "markdown");
                              ("markdown", JObject [("content", JString chunk)])] |})
             (firstn k (chunksOf content)).
Proof.
  destruct (posted_prefix sink webhookUrl content) as (k & Hk & Hf).
  exists k. split; [assumption | exact Hf].
Qed.

(** C9 fails as stated: the request for a chunk goes to the proxy, not to
    the configured address, and its body is not
    [{type: "markdown", content: <chunk>}]. *)
Lemma posted_request_is_not_the_plain_payload :
  let hook := "https://qyapi.weixin.qq.com/cgi-bin/webhook/send?key=k" in
  exists req,
    fetches (snd (sendToWeCom accepting hook "hello")) = [req]
    /\ url req
       = "https://corsproxy.io/?https%3A%2F%2Fqyapi.weixin.qq.com%2Fcgi-bin%2Fwebhook%2Fsend%3Fkey%3Dk"
    /\ url req <> hook
    /\ body req
       = JObject [("msgtype", JString "markdown");
                  ("markdown", JObject [("content", JString "hello")])]
    /\ body req
       <> JObject [("type", JString "markdown"); ("content", JString "hello")].
Proof.
  intros hook. eexists. split; [reflexivity|]. simpl url. simpl body.
  split; [reflexivity|]. split; [discriminate|].
  split; [reflexivity | discriminate].
Qed.

(** C10.  Content that is empty or made of line feeds only gives no chunk,
    no request and a successful delivery; and whatever the content, no
    chunk, and so no chunk that is posted, is the empty string. *)
Theorem empty_content_sends_nothing (sink : Sink) (webhookUrl C : string) :
  (onlyLF C = true ->
   chunksOf C = [] /\ sendToWeCom sink webhookUrl C = (Ok tt, []))
  /\ Forall (fun chunk => chunk <> "") (chunksOf C)
  /\ exists sent,
       fetches (snd (sendToWeCom sink webhookUrl C))
       = map (request (targetUrl webhookUrl)) sent
       /\ Forall (fun chunk => chunk <> "") sent.
Proof.
  assert (Hne : Forall (fun chunk => chunk <> "") (chunksOf C)).
  { eapply Forall_impl; [|apply (split_truthy CHUNK_SIZE C)].
    intros c Hc ->. discriminate. }
  split; [|split; [exact Hne|]].
  - intros H. unfold sendToWeCom, chunksOf.
    rewrite (split_onlyLF CHUNK_SIZE C H). split; reflexivity.
  - destruct (posted_prefix sink webhookUrl C) as (k & _ & Hf).
    exists (firstn k (chunksOf C)). split; [exact Hf|].
    rewrite Forall_forall in *. intros c Hc. apply Hne.
    rewrite <- (firstn_skipn k (chunksOf C)). apply in_or_app. now left.
Qed.

Lemma empty_content_sends_nothing_witness :
  chunksOf (NL ++ NL ++ NL) = []
  /\ sendToWeCom accepting "hook" (NL ++ NL ++ NL) = (Ok tt, []).
Proof.
  apply (proj1 (empty_content_sends_nothing accepting "hook" (NL ++ NL ++ NL))).
  reflexivity.
Defined.

End Delivery.

(** ** The workflow: the properties of the specification *)

Section Workflow.

Import App.

Lemma status_eqb_eq (a b : BotStatus) : status_eqb a b = true <-> a = b.
Proof. destruct a, b; simpl; split; congruence. Qed.

Lemma status_eqb_neq (a b : BotStatus) : status_eqb a b = false <-> a <> b.
Proof. destruct a, b; simpl; split; congruence. Qed.

(** *** The scheduler *)

Lemma startGeneration_lastRunDate (w : World) :
  lastRunDateRef (app (startGeneration w)) = lastRunDateRef (app w).
Proof.
  unfold startGeneration.
  destruct (status_eqb _ _ || status_eqb _ _); [reflexivity|].
  destruct (negb _); reflexivity.
Qed.

(** Only a tick writes the scheduling ref, and it writes the day it reads. *)
Lemma step_lastRunDate (d : string) (w w' : World) (i : Input) :
  onDay d i -> lastRunDateRef (app w) = d -> step w i = Some w' ->
  lastRunDateRef (app w') = d.
Proof.
  intros Hday Hd Hstep. destruct i; simpl in Hstep, Hday.
  - injection Hstep as <-. unfold tick.
    destruct (triggers _ _); [|exact Hd].
    now rewrite startGeneration_lastRunDate.
  - destruct (startOffered _); [|discriminate]. injection Hstep as <-.
    now rewrite startGeneration_lastRunDate.
  - destruct (approveOffered _); [|discriminate]. now injection Hstep as <-.
  - destruct (timerSwitchOffered _); [|discriminate]. now injection Hstep as <-.
  - now injection Hstep as <-.
  - now injection Hstep as <-.
  - now injection Hstep as <-.
  - destruct (nth_error _ _) as [g|]; [|discriminate]. injection Hstep as <-.
    unfold startGeneration_resume. destruct r as [report|e]; [|exact Hd].
    destruct (genRequireConfirmation g); exact Hd.
  - destruct (nth_error _ _) as [c|]; [|discriminate].
    destruct (WeCom.sendToWeCom _ _ _) as [r evs]. injection Hstep as <-.
    destruct r; exact Hd.
  - destruct (nth_error _ _); [|discriminate]. now injection Hstep as <-.
Qed.

Lemma triggers_same_day (s : State) (now : Now) :
  lastRunDateRef s = dateKey now -> triggers s now = false.
Proof.
  intros H. unfold triggers. rewrite H, String.eqb_refl. simpl.
  now rewrite andb_false_r.
Qed.

Lemma autoFires_same_day (d : string) (inputs : list Input) :
  forall w, lastRunDateRef (app w) = d -> Forall (onDay d) inputs ->
            autoFires w inputs = 0.
Proof.
  induction inputs as [|i inputs IH]; intros w Hd Hall; [reflexivity|].
  inversion Hall as [|? ? Hi Hrest]; subst. simpl.
  destruct (step w i) as [w'|] eqn:Hstep; [|reflexivity].
  rewrite (IH w' (step_lastRunDate _ w w' i Hi eq_refl Hstep) Hrest).
  destruct i; try reflexivity.
  simpl in Hi. now rewrite (triggers_same_day _ _ (eq_sym Hi)).
Qed.

Lemma triggers_iff (s : State) (now : Now) :
  triggers s now = true
  <-> autoMode s = true /\ getDay now = 5 /\ getHours now = 16
      /\ getMinutes now = 30 /\ lastRunDateRef s <> dateKey now
      /\ status s = WAITING.
Proof.
  unfold triggers, isFriday, isTimeWindow.
  rewrite !andb_true_iff, negb_true_iff, !Nat.eqb_eq, String.eqb_neq,
    status_eqb_eq.
  tauto.
Qed.

(** C4.  A tick starts a run exactly when the timer is enabled, the clock
    reads Friday 16:30, the day on record is not the day read and the
    status is [WAITING]; it then records the day before it starts the run,
    and otherwise only refreshes the countdown.  From then on, whatever
    happens, no tick that reads the same day starts another run. *)
Theorem scheduler_fires_once_a_day (w : World) (now : Now) :
  let due := autoMode (app w) = true /\ getDay now = 5 /\ getHours now = 16
             /\ getMinutes now = 30
             /\ lastRunDateRef (app w) <> dateKey now
             /\ status (app w) = WAITING in
  (triggers (app w) now = true <-> due)
  /\ (due ->
      tick now w
      = startGeneration
          (onApp (setLastRunDate (dateKey now))
             (onApp (addLog ("Auto-Scheduler triggered for " ++ dateKey now) warning)
                (onApp (setCountDown (nextRunText now)) w)))
      /\ lastRunDateRef (app (tick now w)) = dateKey now)
  /\ (~ due -> tick now w = onApp (setCountDown (nextRunText now)) w)
  /\ (forall inputs,
        Forall (onDay (dateKey now)) inputs ->
        (lastRunDateRef (app w) = dateKey now -> autoFires w inputs = 0)
        /\ (due -> autoFires w (Tick now :: inputs) = 1)).
Proof.
  intros due. pose proof (triggers_iff (app w) now) as Hiff. fold due in Hiff.
  split; [exact Hiff|].
  assert (Hfire : due ->
            tick now w
            = startGeneration
                (onApp (setLastRunDate (dateKey now))
                   (onApp (addLog ("Auto-Scheduler triggered for " ++ dateKey now) warning)
                      (onApp (setCountDown (nextRunText now)) w)))).
  { intros Hdue. apply Hiff in Hdue. unfold tick.
    change (app (onApp (setCountDown (nextRunText now)) w))
      with (setCountDown (nextRunText now) (app w)).
    change (triggers (setCountDown (nextRunText now) (app w)) now)
      with (triggers (app w) now).
    now rewrite Hdue. }
  split; [|split].
  - intros Hdue. split; [now apply Hfire|].
    rewrite (Hfire Hdue). now rewrite startGeneration_lastRunDate.
  - intros Hnot. unfold tick.
    change (triggers (app (onApp (setCountDown (nextRunText now)) w)) now)
      with (triggers (app w) now).
    destruct (triggers (app w) now) eqn:Ht; [|reflexivity].
    exfalso. apply Hnot. now apply Hiff.
  - intros inputs Hall. split.
    + intros Hd. now apply (autoFires_same_day (dateKey now)).
    + intros Hdue. cbn [autoFires step].
      rewrite (proj2 Hiff Hdue).
      rewrite (autoFires_same_day (dateKey now)); [reflexivity| |assumption].
      rewrite (Hfire Hdue). now rewrite startGeneration_lastRunDate.
Qed.

Lemma scheduler_fires_once_a_day_witness :
  let friday := mkNow 5 16 30 "06/11/2026" in
  autoFires (initial "key" "hook")
    [Tick friday; GenerationSettles 0 (Throw (mkError "quota"));
     TimeoutFires 0; Tick friday; Tick friday]
  = 1.
Proof.
  intros friday.
  apply (proj2 (proj2 (proj2 (proj2
           (scheduler_fires_once_a_day (initial "key" "hook") friday)))
           [GenerationSettles 0 (Throw (mkError "quota"));
            TimeoutFires 0; Tick friday; Tick friday]
           ltac:(repeat constructor))).
  simpl. repeat split; discriminate.
Defined.

(** *** The delayed resets *)

(** C5, as amended.  A reset timer, when it fires, sets the status to
    [WAITING] whatever the status is at that time, and changes nothing
    else; and no other input removes a pending timer, so a reset armed by
    one run is still pending when a later run has started. *)
Theorem reset_timer_is_unconditional (w w' : World) (k : nat) :
  step w (TimeoutFires k) = Some w' ->
  app w' = setStatus WAITING (app w)
  /\ status (app w') = WAITING
  /\ timers w' = dropNth k (timers w)
  /\ generating w' = generating w
  /\ sending w' = sending w
  /\ (forall i w2, notTimeout i -> step w i = Some w2 ->
                   exists armed, timers w2 = (timers w ++ armed)%list).
Proof.
  intros Hstep. simpl in Hstep.
  destruct (nth_error (timers w) k); [|discriminate].
  injection Hstep as <-. repeat split.
  intros i w2 Hi Hi2. destruct i; simpl in Hi, Hi2; try contradiction.
  - injection Hi2 as <-. unfold tick.
    destruct (triggers _ _); [|exists []; simpl; now rewrite app_nil_r].
    unfold startGeneration. simpl.
    destruct (status_eqb _ _ || status_eqb _ _);
      [exists []; simpl; now rewrite app_nil_r|].
    destruct (negb _); simpl;
      [now exists [5000%N] | exists []; now rewrite app_nil_r].
  - destruct (startOffered _); [|discriminate]. injection Hi2 as <-.
    unfold startGeneration.
    destruct (status_eqb _ _ || status_eqb _ _);
      [exists []; now rewrite app_nil_r|].
    destruct (negb _); simpl;
      [now exists [5000%N] | exists []; now rewrite app_nil_r].
  - destruct (approveOffered _); [|discriminate]. injection Hi2 as <-.
    exists []. simpl. now rewrite app_nil_r.
  - destruct (timerSwitchOffered _); [|discriminate]. injection Hi2 as <-.
    exists []. simpl. now rewrite app_nil_r.
  - injection Hi2 as <-. exists []. simpl. now rewrite app_nil_r.
  - injection Hi2 as <-. exists []. simpl. now rewrite app_nil_r.
  - injection Hi2 as <-. exists []. simpl. now rewrite app_nil_r.
  - destruct (nth_error (generating w) i) as [g|]; [|discriminate].
    injection Hi2 as <-. unfold startGeneration_resume.
    destruct r as [report|e]; [|now exists [60000%N]].
    destruct (genRequireConfirmation g); exists []; simpl; now rewrite app_nil_r.
  - destruct (nth_error (sending w) i) as [c|]; [|discriminate].
    destruct (WeCom.sendToWeCom _ _ _) as [r evs]. injection Hi2 as <-.
    destruct r; simpl; [now exists [60000%N] | exists []; now rewrite app_nil_r].
Qed.

Lemma reset_timer_is_unconditional_witness :
  let w := after (initial "" "hook") [ClickStart; TypeApiKey "key"; ClickStart] in
  let w' := after w [TimeoutFires 0] in
  step w (TimeoutFires 0) = Some w'
  /\ status (app w) = GENERATING
  /\ status (app w') = WAITING.
Proof.
  intros w w'. split; [reflexivity|]. split; [reflexivity|].
  exact (proj1 (proj2 (reset_timer_is_unconditional w w' 0 eq_refl))).
Defined.

(** C5 fails as stated: the reset armed by a run that failed for want of
    a credential fires while the next run is generating, and puts the
    status back to [WAITING] with the generation still pending. *)
Lemma stale_reset_overwrites_a_new_run :
  exists w w',
    run (initial "" "hook") [ClickStart; TypeApiKey "key"; ClickStart] = Some w
    /\ status (app w) = GENERATING
    /\ timers w = [5000%N]
    /\ generating w = [mkGenCall "key" true "hook"]
    /\ step w (TimeoutFires 0) = Some w'
    /\ status (app w') = WAITING
    /\ status (app w') <> status (app w)
    /\ generating w' = [mkGenCall "key" true "hook"].
Proof.
  eexists. eexists. split; [reflexivity|]. simpl.
  repeat split. discriminate.
Qed.

(** *** The send phase *)

(** C6, as amended.  The page offers the approval only while the status
    is [REVIEWING]; [executeSend] itself does not look at the status:
    whenever it is called it sets the status to [SENDING], logs one entry
    and calls the delivery. *)
Theorem approve_is_gated_by_the_page (w : World) :
  (status (app w) <> REVIEWING -> step w ClickApprove = None)
  /\ (status (app w) = REVIEWING ->
      step w ClickApprove
      = Some (executeSend (webhookUrl (app w)) (lastReport (app w)) w))
  /\ (forall url content,
        status (app (executeSend url content w)) = SENDING
        /\ logs (app (executeSend url content w))
           = (logs (app w) ++ [mkLog "Sending report to WeCom..." info])%list
        /\ sending (executeSend url content w)
           = (sending w ++ [mkSendCall url content])%list).
Proof.
  split; [|split].
  - intros H. simpl. unfold approveOffered.
    apply status_eqb_neq in H. now rewrite H.
  - intros H. simpl. unfold approveOffered. now rewrite H.
  - intros url content. repeat split.
Qed.

Lemma approve_is_gated_by_the_page_witness :
  step (initial "key" "hook") ClickApprove = None.
Proof.
  apply (proj1 (approve_is_gated_by_the_page (initial "key" "hook"))).
  discriminate.
Defined.

(** C6 fails as stated: the operation that dispatches the content is not
    a no-op outside [REVIEWING].  Called in [WAITING] it moves the status
    to [SENDING] and logs; and with the confirmation switched off the
    generation phase calls it while the status is [GENERATING]. *)
Lemma executeSend_has_no_guard :
  let w := initial "key" "hook" in
  status (app w) = WAITING
  /\ status (app (executeSend "hook" "report" w)) = SENDING
  /\ logs (app (executeSend "hook" "report" w))
     = [mkLog "Sending report to WeCom..." info]
  /\ sending (executeSend "hook" "report" w) = [mkSendCall "hook" "report"]
  /\ exists w1 w2,
       run w [CheckConfirmation false; ClickStart] = Some w1
       /\ status (app w1) = GENERATING
       /\ step w1 (GenerationSettles 0 (Ok "report")) = Some w2
       /\ status (app w2) = SENDING
       /\ sending w2 = [mkSendCall "hook" "report"].
Proof.
  simpl. repeat split. eexists. eexists. repeat split.
Qed.

(** C7.  When the delivery of a pending send fails with [e], the status
    becomes [REVIEWING] (not [ERROR]), the stored report is as it was,
    one entry is logged, of type [error], and no reset is armed; the
    approval is then on offer and calls the delivery again with the
    stored report, and that delivery starts over: whatever the sink, its
    requests are those of the first chunks of the report in order, and
    when the report has a chunk at all the first request is made and is
    for chunk 0. *)
Theorem failed_delivery_returns_to_review (w : World) (k : nat)
        (c : SendCall) (sink : WeCom.Sink) (e : Error) :
  nth_error (sending w) k = Some c ->
  fst (WeCom.sendToWeCom sink (sendUrl c) (sendContent c)) = Throw e ->
  exists w',
    step w (SendSettles k sink) = Some w'
    /\ status (app w') = REVIEWING
    /\ lastReport (app w') = lastReport (app w)
    /\ logs (app w')
       = (logs (app w)
          ++ [mkLog ("Send Failed: " ++ Js.message e
                     ++ ". Please click 'Approve & Send' to retry.") error])%list
    /\ timers w' = timers w
    /\ sending w' = dropNth k (sending w)
    /\ exists w'',
         step w' ClickApprove = Some w''
         /\ status (app w'') = SENDING
         /\ sending w''
            = (dropNth k (sending w)
               ++ [mkSendCall (webhookUrl (app w)) (lastReport (app w))])%list
         /\ forall sink',
              (exists n,
                 (WeCom.chunksOf (lastReport (app w)) <> [] -> 1 <= n)
                 /\ WeCom.fetches
                      (snd (WeCom.sendToWeCom sink' (webhookUrl (app w))
                              (lastReport (app w))))
                    = map (WeCom.request (WeCom.targetUrl (webhookUrl (app w))))
                          (firstn n (WeCom.chunksOf (lastReport (app w)))))
              /\ (forall chunk0 others,
                    WeCom.chunksOf (lastReport (app w)) = chunk0 :: others ->
                    exists more,
                      WeCom.fetches
                        (snd (WeCom.sendToWeCom sink' (webhookUrl (app w))
                                (lastReport (app w))))
                      = WeCom.request (WeCom.targetUrl (webhookUrl (app w))) chunk0
                        :: more).
Proof.
  intros Hc He. simpl. rewrite Hc.
  destruct (WeCom.sendToWeCom sink (sendUrl c) (sendContent c)) as [r evs].
  simpl in He. subst r. eexists. split; [reflexivity|]. simpl.
  repeat split; try (eexists; repeat split; fail).
  eexists. split; [reflexivity|]. split; [reflexivity|]. split; [reflexivity|].
  intros sink'.
  destruct (posted_prefix_first sink' (webhookUrl (app w)) (lastReport (app w)))
    as (n & _ & Hpos & Hn).
  split; [now exists n|].
  intros chunk0 others Hchunks. rewrite Hn, Hchunks.
  assert (1 <= n) as H1 by (apply Hpos; rewrite Hchunks; discriminate).
  destruct n as [|n]; [lia|]. simpl. now eexists.
Qed.

Lemma failed_delivery_returns_to_review_witness :
  let w := after (initial "key" "hook")
             [ClickStart; GenerationSettles 0 (Ok "report"); ClickApprove] in
  status (app w) = SENDING
  /\ exists w',
       step w (SendSettles 0 (WeCom.unreachableFrom 0)) = Some w'
       /\ status (app w') = REVIEWING
       /\ lastReport (app w') = lastReport (app w).
Proof.
  intros w. split; [reflexivity|].
  destruct (failed_delivery_returns_to_review w 0 (mkSendCall "hook" "report")
              (WeCom.unreachableFrom 0) (mkError "Failed to fetch")
              eq_refl eq_refl)
    as (w' & Hstep & Hstatus & Hreport & _).
  exists w'. split; [exact Hstep|]. split; assumption.
Defined.

(** *** The generation phase *)

(** C8.  Called while the status is [SEARCHING] or [GENERATING],
    [startGeneration] changes nothing: no status, no log entry, no call of
    the generation.  From every other status it goes ahead: with a
    credential the status becomes [GENERATING] and one call of the
    generation is made; without one the status becomes [ERROR], with no
    call. *)
Theorem start_is_guarded_while_generating (w : World) :
  (status (app w) = SEARCHING \/ status (app w) = GENERATING ->
   startGeneration w = w)
  /\ (status (app w) <> SEARCHING -> status (app w) <> GENERATING ->
      (apiKey (app w) <> "" ->
       status (app (startGeneration w)) = GENERATING
       /\ generating (startGeneration w)
          = (generating w
             ++ [mkGenCall (apiKey (app w)) (requireConfirmation (app w))
                           (webhookUrl (app w))])%list)
      /\ (apiKey (app w) = "" ->
          status (app (startGeneration w)) = ERROR
          /\ generating (startGeneration w) = generating w
          /\ timers (startGeneration w) = (timers w ++ [5000%N])%list)).
Proof.
  split.
  - intros [H|H]; unfold startGeneration; rewrite H; reflexivity.
  - intros Hs Hg. apply status_eqb_neq in Hs, Hg.
    unfold startGeneration. rewrite Hs, Hg. simpl. split.
    + intros Hkey. destruct (apiKey (app w)); [congruence|]. simpl. auto.
    + intros ->. simpl. auto.
Qed.

Lemma start_is_guarded_while_generating_witness :
  let w := after (initial "key" "hook") [ClickStart] in
  status (app w) = GENERATING /\ startGeneration w = w.
Proof.
  intros w. split; [reflexivity|].
  apply (proj1 (start_is_guarded_while_generating w)).
  right. reflexivity.
Defined.

End Workflow.

(** ** The split: further properties *)

Section SplitFurther.

Import WeCom.

Variable M : nat.

Lemma In_pushIfAny (cs : list string) (c l : string) :
  In l (pushIfAny cs c) <-> In l cs \/ (truthy c = true /\ l = c).
Proof.
  unfold pushIfAny. destruct (truthy c).
  - rewrite in_app_iff. simpl. intuition.
  - intuition discriminate.
Qed.

Lemma long_is_truthy (l : string) : M < String.length l -> truthy l = true.
Proof. destruct l; simpl; [lia | reflexivity]. Qed.

Lemma addLine_long (pre : list string) (line : string) (a : Acc) :
  True ->
  (forall l, In l pre -> M < String.length l ->
             In l (pushIfAny (chunks a) (currentChunk a))) ->
  forall l, In l (pre ++ [line]) -> M < String.length l ->
            In l (pushIfAny (chunks (addLine M a line))
                            (currentChunk (addLine M a line))).
Proof.
  intros _ IH l Hin Hlong. apply in_app_iff in Hin. unfold addLine.
  destruct (Nat.ltb_spec M (String.length (currentChunk a)
                            + String.length line + 1)) as [Hlt|Hge]; simpl.
  - apply In_pushIfAny. destruct Hin as [Hin|[<-|[]]].
    + left. now apply IH.
    + right. split; [now apply long_is_truthy | reflexivity].
  - destruct Hin as [Hin|[<-|[]]]; [|lia].
    apply In_pushIfAny. left.
    apply IH in Hin; [|assumption]. apply In_pushIfAny in Hin.
    destruct Hin as [Hin|[_ ->]]; [assumption | lia].
Qed.

(** X3.  A line longer than the limit is a chunk by itself: it is sent
    whole, in a message of its own. *)
Theorem long_line_is_a_chunk (content line : string) :
  In line (split_nl content) -> M < String.length line ->
  In line (split M content).
Proof.
  intros Hin Hlong. unfold split.
  apply (fold_left_invariant (addLine M) (fun _ => True)
           (fun pre a => forall l, In l pre -> M < String.length l ->
                                   In l (pushIfAny (chunks a) (currentChunk a)))
           addLine_long (split_nl content) [] start);
    try assumption.
  - apply Forall_forall. auto.
  - intros l [].
Qed.

Lemma join_app (sep : string) (xs ys : list string) :
  xs <> [] -> ys <> [] ->
  join sep (xs ++ ys) = join sep xs ++ sep ++ join sep ys.
Proof.
  intros Hx Hy. induction xs as [|x xs IH]; [congruence|].
  destruct xs as [|x' xs].
  - destruct ys; [congruence | reflexivity].
  - change (join sep ((x :: x' :: xs) ++ ys))
      with (x ++ sep ++ join sep ((x' :: xs) ++ ys)).
    rewrite IH by discriminate.
    change (join sep (x :: x' :: xs)) with (x ++ sep ++ join sep (x' :: xs)).
    now rewrite !append_assoc.
Qed.

Lemma length_join_prefix (pre post : list string) :
  String.length (join NL pre) <= String.length (join NL (pre ++ post)).
Proof.
  destruct post as [|y post]; [now rewrite app_nil_r|].
  destruct pre as [|x pre]; [simpl; lia|].
  rewrite join_app by discriminate. rewrite !length_append. lia.
Qed.

(** Lines that fit together pile up in the current chunk. *)
Lemma fold_addLine_fits (post : list string) :
  forall pre,
    pre <> [] -> truthy (join NL pre) = true ->
    String.length (join NL (pre ++ post)) <= M ->
    fold_left (addLine M) post (mkAcc [] (join NL pre))
    = mkAcc [] (join NL (pre ++ post)).
Proof.
  induction post as [|x post IH]; intros pre Hpre Ht Hlen; simpl.
  - now rewrite app_nil_r.
  - replace (pre ++ x :: post)%list with ((pre ++ [x]) ++ post)%list in *
      by (now rewrite <- app_assoc).
    pose proof (length_join_prefix (pre ++ [x]) post) as Hle.
    rewrite (join_snoc NL pre x Hpre) in Hle at 1.
    rewrite !length_append in Hle. simpl in Hle.
    unfold addLine at 2. simpl.
    destruct (Nat.ltb_spec M (String.length (join NL pre) + String.length x + 1))
      as [Hlt|_]; [lia|].
    rewrite Ht. change (String LF x) with (NL ++ x).
    rewrite <- (join_snoc NL pre x Hpre).
    apply IH; [now destruct pre | | assumption].
    rewrite (join_snoc NL pre x Hpre). now apply truthy_append_l.
Qed.

Lemma first_line_truthy (s : string) :
  s <> "" -> startsWithLF s = false ->
  exists l ls, split_nl s = l :: ls /\ truthy l = true.
Proof.
  destruct s as [|c s]; [congruence|]. intros _. simpl. intros ->.
  pose proof (split_nl_not_nil s) as Hne.
  destruct (split_nl s) as [|l ls]; [contradiction|].
  now exists (String c l), ls.
Qed.

(** X4.  Content within the limit that does not start with a line feed is
    one chunk, the content itself. *)
Theorem content_within_limit_is_one_chunk (content : string) :
  content <> "" -> startsWithLF content = false ->
  String.length content <= M ->
  split M content = [content].
Proof.
  intros Hne Hstart Hlen. unfold split.
  destruct (first_line_truthy content Hne Hstart) as (l & ls & Hs & Hl).
  pose proof (join_split_nl content) as Hj. rewrite Hs in *. simpl.
  assert (Hfirst : addLine M start l = mkAcc [] (join NL [l])).
  { unfold addLine. simpl. destruct (M <? _)%nat; reflexivity. }
  rewrite Hfirst.
  rewrite (fold_addLine_fits ls [l]); try discriminate; try assumption.
  - simpl app. rewrite Hj. simpl. unfold pushIfAny.
    destruct content; [congruence | reflexivity].
  - simpl app. now rewrite Hj.
Qed.

End SplitFurther.

Section SplitFurtherWitnesses.

Import WeCom.

Lemma long_line_is_a_chunk_witness :
  In (repeatStr "x" 2000)
     (split CHUNK_SIZE ("intro" ++ NL ++ repeatStr "x" 2000 ++ NL ++ "outro")).
Proof.
  apply long_line_is_a_chunk; [|vm_compute; lia].
  vm_compute. right. left. reflexivity.
Defined.

Lemma content_within_limit_is_one_chunk_witness :
  split CHUNK_SIZE ("# Weekly" ++ NL ++ NL ++ "- item" ++ NL)
  = ["# Weekly" ++ NL ++ NL ++ "- item" ++ NL].
Proof.
  apply content_within_limit_is_one_chunk;
    [discriminate | reflexivity | vm_compute; lia].
Defined.

End SplitFurtherWitnesses.

Section SplitGreedy.

Import WeCom.

Variable M : nat.

Lemma tight_snoc (cs : list string) (c : string) :
  tight M (cs ++ [c])
  <-> tight M cs
      /\ (cs = [] \/ M < String.length (last cs "")
                        + String.length (firstLine c) + 1).
Proof.
  induction cs as [|x cs IH].
  - simpl. intuition.
  - destruct cs as [|y cs].
    + simpl. intuition congruence.
    + change (tight M ((x :: y :: cs) ++ [c]))
        with (M < String.length x + String.length (firstLine y) + 1
              /\ tight M ((y :: cs) ++ [c])).
      change (tight M (x :: y :: cs))
        with (M < String.length x + String.length (firstLine y) + 1
              /\ tight M (y :: cs)).
      change (last (x :: y :: cs) "") with (last (y :: cs) "").
      rewrite IH. intuition congruence.
Qed.

Lemma tight_adjacent (xs ys : list string) (c1 c2 : string) :
  tight M (xs ++ c1 :: c2 :: ys) ->
  M < String.length c1 + String.length (firstLine c2) + 1.
Proof.
  induction xs as [|x xs IH]; simpl.
  - intros [H _]. exact H.
  - intros [_ H]. now apply IH.
Qed.

Lemma firstLine_single (l : string) : hasLF l = false -> firstLine l = l.
Proof. intros H. unfold firstLine. now rewrite (split_nl_single l H). Qed.

Lemma firstLine_append (a b : string) : firstLine (a ++ NL ++ b) = firstLine a.
Proof.
  unfold firstLine. rewrite split_nl_append.
  pose proof (split_nl_not_nil a). now destruct (split_nl a).
Qed.

Lemma addLine_tight (pre : list string) (line : string) (a : Acc) :
  hasLF line = false -> tightAcc M a -> tightAcc M (addLine M a line).
Proof.
  intros Hl [Ht Hp]. unfold tightAcc, addLine.
  destruct (Nat.ltb_spec M (String.length (currentChunk a)
                            + String.length line + 1)) as [Hlt|Hge]; simpl.
  - unfold pushIfAny. destruct (truthy (currentChunk a)) eqn:Hc.
    + split.
      * apply tight_snoc. auto.
      * right. rewrite last_last, (firstLine_single line Hl). exact Hlt.
    + split; [assumption|]. destruct Hp as [Hp|Hp]; [now left | right].
      apply truthy_false in Hc. rewrite Hc in Hp. simpl in Hp. lia.
  - split; [assumption|]. destruct Hp as [Hp|Hp]; [now left | right].
    destruct (truthy (currentChunk a)) eqn:Hc.
    + change (String LF line) with (NL ++ line).
      now rewrite firstLine_append.
    + apply truthy_false in Hc. rewrite Hc in Hp. simpl in Hp. lia.
Qed.

(** X5.  The split is greedy: of two neighbouring chunks, the first could
    not have taken the first line of the second within the limit. *)
Theorem split_is_greedy (content : string) (before after : list string)
        (c1 c2 : string) :
  split M content = (before ++ c1 :: c2 :: after)%list ->
  M < String.length c1 + String.length (firstLine c2) + 1.
Proof.
  intros Hsplit. apply (tight_adjacent before after). rewrite <- Hsplit.
  unfold split.
  assert (H : tightAcc M (fold_left (addLine M) (split_nl content) start)).
  { apply (fold_left_invariant (addLine M) (fun l => hasLF l = false)
             (fun _ a => tightAcc M a)
             (fun pre x a => addLine_tight pre x a)
             (split_nl content) [] start (split_nl_lines content)).
    split; [exact I | now left]. }
  destruct H as [Ht Hp]. unfold pushIfAny.
  destruct (truthy _); [|assumption].
  apply tight_snoc. auto.
Qed.

Lemma hasLF_startsWithLF (s : string) : hasLF s = false -> startsWithLF s = false.
Proof.
  destruct s as [|c s]; simpl; [reflexivity|].
  intros H. now apply orb_false_iff in H.
Qed.

Lemma addLine_starts (pre : list string) (line : string) (a : Acc) :
  hasLF line = false ->
  Forall (fun c => startsWithLF c = false) (chunks a)
  /\ startsWithLF (currentChunk a) = false ->
  Forall (fun c => startsWithLF c = false) (chunks (addLine M a line))
  /\ startsWithLF (currentChunk (addLine M a line)) = false.
Proof.
  intros Hl [Hcs Hcur]. apply hasLF_startsWithLF in Hl.
  unfold addLine. destruct (M <? _)%nat; simpl.
  - split; [|assumption]. unfold pushIfAny.
    destruct (truthy (currentChunk a)); [|assumption].
    apply Forall_app. split; [assumption | now constructor].
  - split; [assumption|].
    destruct (currentChunk a) as [|c cur]; simpl in *; assumption.
Qed.

(** X6.  Every chunk starts with a unit that is not a line feed: no message
    is empty or opens with a blank line. *)
Theorem chunk_starts_with_text (content : string) :
  Forall (fun chunk => exists u rest, chunk = String u rest /\ u <> LF)
         (split M content).
Proof.
  assert (Hs : Forall (fun c => startsWithLF c = false) (split M content)).
  { unfold split.
    assert (H : Forall (fun c => startsWithLF c = false)
                  (chunks (fold_left (addLine M) (split_nl content) start))
                /\ startsWithLF
                     (currentChunk (fold_left (addLine M) (split_nl content) start))
                   = false).
    { apply (fold_left_invariant (addLine M) (fun l => hasLF l = false)
               (fun _ a => Forall (fun c => startsWithLF c = false) (chunks a)
                           /\ startsWithLF (currentChunk a) = false)
               (fun pre x a => addLine_starts pre x a)
               (split_nl content) [] start (split_nl_lines content)).
      split; [constructor | reflexivity]. }
    destruct H as [Hcs Hcur]. unfold pushIfAny.
    destruct (truthy _); [|assumption].
    apply Forall_app. split; [assumption | now constructor]. }
  pose proof (split_truthy M content) as Ht.
  rewrite Forall_forall in *. intros c Hc.
  specialize (Hs c Hc). specialize (Ht c Hc).
  destruct c as [|u rest]; [discriminate|].
  exists u, rest. split; [reflexivity|].
  simpl in Hs. now apply Ascii.eqb_neq.
Qed.

End SplitGreedy.

Section SplitGreedyWitnesses.

Import WeCom.

Lemma split_is_greedy_witness :
  CHUNK_SIZE < String.length (repeatStr "x" 600)
               + String.length (firstLine (repeatStr "y" 600 ++ NL ++ "z")) + 1.
Proof.
  apply (split_is_greedy CHUNK_SIZE
           (repeatStr "x" 600 ++ NL ++ repeatStr "y" 600 ++ NL ++ "z") [] []).
  vm_compute. reflexivity.
Defined.

End SplitGreedyWitnesses.

(** ** The transmission: further properties *)

Section TransmissionFurther.

Import WeCom.

Variable sink : Sink.
Variable target : string.

Lemma sendFrom_success (n : nat) (rest : list string) :
  forall i,
    i + List.length rest = n ->
    (forall j, j < List.length rest ->
               check (sink (i + j) (request target (nth j rest ""))) = Ok tt) ->
    sendFrom sink target n i rest = (Ok tt, deliveredTrace target rest).
Proof.
  induction rest as [|chunk rest IH]; intros i Hn Hok; [reflexivity|].
  cbn [sendFrom]. pose proof (Hok 0 ltac:(simpl; lia)) as H0.
  rewrite Nat.add_0_r in H0. simpl in H0. rewrite H0.
  rewrite (IH (i + 1)).
  - destruct rest as [|c' rest']; simpl in *.
    + replace (i <? n - 1)%nat with false
        by (symmetry; apply Nat.ltb_ge; lia).
      reflexivity.
    + replace (i <? n - 1)%nat with true
        by (symmetry; apply Nat.ltb_lt; lia).
      reflexivity.
  - simpl in Hn. lia.
  - intros j Hj. specialize (Hok (S j) ltac:(simpl; lia)).
    now replace (i + 1 + j) with (i + S j) by lia.
Qed.

Lemma sendFrom_Ok_inv (n : nat) (rest : list string) :
  forall i,
    fst (sendFrom sink target n i rest) = Ok tt ->
    forall j, j < List.length rest ->
              check (sink (i + j) (request target (nth j rest ""))) = Ok tt.
Proof.
  induction rest as [|chunk rest IH]; intros i Hr j Hj; simpl in Hj; [lia|].
  cbn [sendFrom] in Hr.
  destruct (check (sink i (request target chunk))) as [[]|e] eqn:Hc;
    [|discriminate].
  destruct (sendFrom sink target n (i + 1) rest) as [r evs] eqn:Hs.
  simpl in Hr. destruct j as [|j].
  - rewrite Nat.add_0_r. exact Hc.
  - replace (i + S j) with (i + 1 + j) by lia. simpl.
    apply IH; [|lia]. now rewrite Hs.
Qed.

Lemma fetches_deliveredTrace (cs : list string) :
  fetches (deliveredTrace target cs) = map (request target) cs.
Proof.
  induction cs as [|c cs IH]; [reflexivity|].
  simpl. f_equal. destruct cs; [reflexivity | exact IH].
Qed.

Lemma pauses_deliveredTrace (cs : list string) :
  pauses (deliveredTrace target cs) = repeat 300%N (List.length cs - 1).
Proof.
  induction cs as [|c cs IH]; [reflexivity|].
  simpl. destruct cs as [|c' cs]; [reflexivity|].
  cbn [pauses]. rewrite IH. simpl. now rewrite Nat.sub_0_r.
Qed.

Lemma consoleErrors_deliveredTrace (cs : list string) :
  consoleErrors (deliveredTrace target cs) = [].
Proof.
  induction cs as [|c cs IH]; [reflexivity|].
  simpl. destruct cs; [reflexivity | exact IH].
Qed.

Lemma pauses_app (a b : list Event) :
  pauses (a ++ b) = (pauses a ++ pauses b)%list.
Proof.
  induction a as [|[req|ms|msg e] a IH]; simpl; [reflexivity | assumption | | assumption].
  now rewrite IH.
Qed.

Lemma pauses_abortedTrace (before : list string) (failed : string)
      (k n : nat) (e : Error) :
  pauses (abortedTrace target before failed k n e)
  = repeat 300%N (List.length before).
Proof.
  unfold abortedTrace. rewrite pauses_app. simpl. rewrite app_nil_r.
  induction before as [|c before IH]; simpl; [reflexivity | now rewrite IH].
Qed.

End TransmissionFurther.

Section DeliveryFurther.

Import WeCom.

(** X1.  A delivery resolves exactly when the sink accepts every chunk; it
    then posts every chunk once, in order, pauses 300 ms after each chunk
    but the last, and writes nothing to the console. *)
Theorem delivery_succeeds_iff_all_accepted (sink : Sink)
        (webhookUrl content : string) :
  (fst (sendToWeCom sink webhookUrl content) = Ok tt
   <-> allAccepted sink webhookUrl content)
  /\ (allAccepted sink webhookUrl content ->
      snd (sendToWeCom sink webhookUrl content)
      = deliveredTrace (targetUrl webhookUrl) (chunksOf content)
      /\ fetches (snd (sendToWeCom sink webhookUrl content))
         = map (request (targetUrl webhookUrl)) (chunksOf content)
      /\ pauses (snd (sendToWeCom sink webhookUrl content))
         = repeat 300%N (List.length (chunksOf content) - 1)
      /\ consoleErrors (snd (sendToWeCom sink webhookUrl content)) = []).
Proof.
  assert (Hall : allAccepted sink webhookUrl content ->
                 sendToWeCom sink webhookUrl content
                 = (Ok tt, deliveredTrace (targetUrl webhookUrl) (chunksOf content))).
  { intros H. unfold sendToWeCom. apply sendFrom_success; [reflexivity|].
    intros j Hj. apply H. exact Hj. }
  split; [split|].
  - intros Hr i Hi.
    apply (sendFrom_Ok_inv sink (targetUrl webhookUrl)
             (List.length (chunksOf content)) (chunksOf content) 0 Hr i Hi).
  - intros H. now rewrite (Hall H).
  - intros H. rewrite (Hall H). simpl snd.
    rewrite fetches_deliveredTrace, pauses_deliveredTrace,
      consoleErrors_deliveredTrace. auto.
Qed.

Lemma accepting_allAccepted (webhookUrl content : string) :
  allAccepted accepting webhookUrl content.
Proof. intros i _. reflexivity. Qed.

Lemma delivery_succeeds_iff_all_accepted_witness :
  pauses (snd (sendToWeCom accepting "hook"
                 (repeatStr "x" 600 ++ NL ++ repeatStr "y" 600 ++ NL
                  ++ repeatStr "z" 600)))
  = [300%N; 300%N].
Proof.
  apply (proj2 (delivery_succeeds_iff_all_accepted accepting "hook"
                  (repeatStr "x" 600 ++ NL ++ repeatStr "y" 600 ++ NL
                   ++ repeatStr "z" 600))).
  apply accepting_allAccepted.
Defined.

(** X2.  A delivery that fails at chunk [k] has posted chunks 0 to [k] with
    a pause after each of the [k] chunks that went through, and none after
    the failure; the console line is the last thing it does. *)
Theorem aborted_delivery_trace (sink : Sink) (webhookUrl content : string)
        (k : nat) (e : Error) :
  failsAt sink webhookUrl content k e ->
  snd (sendToWeCom sink webhookUrl content)
  = abortedTrace (targetUrl webhookUrl) (firstn k (chunksOf content))
                 (nth k (chunksOf content) "") k
                 (List.length (chunksOf content)) e
  /\ pauses (snd (sendToWeCom sink webhookUrl content)) = repeat 300%N k.
Proof.
  intros (Hk & Hok & Hfail). unfold sendToWeCom.
  rewrite (sendFrom_abort sink (targetUrl webhookUrl)
             (List.length (chunksOf content)) (chunksOf content) 0 k e);
    try assumption; try reflexivity.
  simpl snd. split; [reflexivity|].
  rewrite pauses_abortedTrace, length_firstn. f_equal. lia.
Qed.

Lemma aborted_delivery_trace_witness :
  pauses (snd (sendToWeCom (unreachableFrom 1) "hook"
                 (repeatStr "x" 600 ++ NL ++ repeatStr "y" 600 ++ NL
                  ++ repeatStr "z" 600)))
  = [300%N].
Proof.
  apply (aborted_delivery_trace (unreachableFrom 1) "hook"
           (repeatStr "x" 600 ++ NL ++ repeatStr "y" 600 ++ NL
            ++ repeatStr "z" 600) 1 (mkError "Failed to fetch")).
  split; [vm_compute; lia|].
  split; [|reflexivity].
  intros i Hi. assert (i = 0) as -> by lia. reflexivity.
Defined.

End DeliveryFurther.

(** ** The workflow: further properties *)

Section WorkflowFurther.

Import App.

(** Reads [step w i = Some w'] back into the handler that ran. *)
Ltac step_inv H :=
  simpl in H;
  repeat match type of H with
         | (if ?b then _ else _) = Some _ =>
             let E := fresh "Hoffer" in destruct b eqn:E; [|discriminate]
         | match nth_error ?l ?k with _ => _ end = Some _ =>
             let E := fresh "Hnth" in
             destruct (nth_error l k) eqn:E; [|discriminate]
         | (let (_, _) := ?x in _) = Some _ =>
             let E := fresh "Hsend" in destruct x as [res evs] eqn:E
         end;
  injection H as <-.

Ltac grown :=
  first [ exists []; simpl; rewrite app_nil_r; reflexivity
        | eexists; simpl; reflexivity ].

Lemma startGeneration_logs (w : World) :
  exists new, logs (app (startGeneration w)) = (logs (app w) ++ new)%list.
Proof.
  unfold startGeneration.
  destruct (status_eqb _ _ || status_eqb _ _); [exists []; now rewrite app_nil_r|].
  destruct (negb _); simpl; [now eexists|].
  rewrite <- app_assoc. now eexists.
Qed.

Lemma step_logs (w w' : World) (i : Input) :
  step w i = Some w' ->
  exists new, logs (app w') = (logs (app w) ++ new)%list.
Proof.
  intros H. destruct i as [now| | | |v|v|v|k r|k sink|k]; step_inv H; try grown.
  - unfold tick. destruct (triggers _ _); [|grown].
    destruct (startGeneration_logs
                (onApp (setLastRunDate (dateKey now))
                   (onApp (addLog ("Auto-Scheduler triggered for " ++ dateKey now) warning)
                      (onApp (setCountDown (nextRunText now)) w)))) as [new Hn].
    rewrite Hn. simpl. rewrite <- app_assoc. now eexists.
  - apply startGeneration_logs.
  - unfold startGeneration_resume. destruct r as [report|e].
    + destruct (genRequireConfirmation g); simpl;
        rewrite <- ?app_assoc; now eexists.
    + grown.
  - destruct res; simpl; rewrite <- ?app_assoc; now eexists.
Qed.

(** X8.  The log is append-only: whatever the inputs, the entries logged
    before are still there, in the same order, at the front of the log. *)
Theorem log_is_append_only (inputs : list Input) :
  forall w w', run w inputs = Some w' ->
               exists new, logs (app w') = (logs (app w) ++ new)%list.
Proof.
  induction inputs as [|i inputs IH]; intros w w' H; simpl in H.
  - injection H as <-. exists []. now rewrite app_nil_r.
  - destruct (step w i) as [w1|] eqn:Hstep; [|discriminate].
    destruct (step_logs _ _ _ Hstep) as [new1 H1].
    destruct (IH _ _ H) as [new2 H2].
    exists (new1 ++ new2)%list. now rewrite H2, H1, app_assoc.
Qed.

Lemma startGeneration_lastReport (w : World) :
  lastReport (app (startGeneration w)) = lastReport (app w).
Proof.
  unfold startGeneration.
  destruct (status_eqb _ _ || status_eqb _ _); [reflexivity|].
  destruct (negb _); reflexivity.
Qed.

Lemma step_lastReport (w w' : World) (i : Input) :
  notNewReport i -> step w i = Some w' ->
  lastReport (app w') = lastReport (app w).
Proof.
  intros Hi H. destruct i as [now| | | |v|v|v|k r|k sink|k]; step_inv H;
    try reflexivity.
  - unfold tick. destruct (triggers _ _); [|reflexivity].
    now rewrite startGeneration_lastReport.
  - apply startGeneration_lastReport.
  - destruct r as [report|e]; [contradiction | reflexivity].
  - destruct res; reflexivity.
Qed.

(** X9.  The stored report is replaced only by a generation that succeeds,
    and then by what it returned: starting a run, a failed generation, a
    delivery (failed or not) and the resets all leave it as it is. *)
Theorem report_is_kept_until_replaced (w : World) :
  (forall inputs w',
     Forall notNewReport inputs -> run w inputs = Some w' ->
     lastReport (app w') = lastReport (app w))
  /\ (forall k report w',
        step w (GenerationSettles k (Ok report)) = Some w' ->
        lastReport (app w') = report).
Proof.
  split.
  - intros inputs. revert w.
    induction inputs as [|i inputs IH]; intros w w' Hall H; simpl in H.
    + now injection H as <-.
    + inversion Hall; subst.
      destruct (step w i) as [w1|] eqn:Hstep; [|discriminate].
      rewrite (IH _ _ ltac:(assumption) H).
      now apply (step_lastReport w w1 i).
  - intros k report w' H. step_inv H. unfold startGeneration_resume.
    destruct (genRequireConfirmation g); reflexivity.
Qed.

Lemma report_is_kept_until_replaced_witness :
  let w := after (initial "key" "hook")
             [ClickStart; GenerationSettles 0 (Ok "report")] in
  lastReport
    (app (after w [ClickStart; GenerationSettles 0 (Throw (mkError "quota"));
                   TimeoutFires 0]))
  = lastReport (app w).
Proof.
  intros w.
  refine (proj1 (report_is_kept_until_replaced w)
            [ClickStart; GenerationSettles 0 (Throw (mkError "quota"));
             TimeoutFires 0]
            (after w [ClickStart; GenerationSettles 0 (Throw (mkError "quota"));
                      TimeoutFires 0]) _ _).
  - repeat constructor.
  - vm_compute. reflexivity.
Defined.

Lemma log_is_append_only_witness :
  exists new,
    logs (app (after (initial "" "hook") [ClickStart; TimeoutFires 0; ClickStart]))
    = (logs (app (after (initial "" "hook") [ClickStart])) ++ new)%list.
Proof.
  refine (log_is_append_only [TimeoutFires 0; ClickStart]
            (after (initial "" "hook") [ClickStart])
            (after (initial "" "hook") [ClickStart; TimeoutFires 0; ClickStart]) _).
  vm_compute. reflexivity.
Defined.

(** *** One call at a time *)

Lemma rest_start (w : World) :
  generating w = [] -> sending w = [] ->
  status_eqb (status (app w)) SEARCHING || status_eqb (status (app w)) GENERATING
  = false ->
  oneAtATime (startGeneration w).
Proof.
  intros Hg Hs Hst. unfold startGeneration. rewrite Hst.
  destruct (negb _); unfold oneAtATime; simpl; rewrite Hg, Hs; auto.
Qed.

Lemma singleton_nth {A : Type} (l : list A) (k : nat) (x : A) :
  List.length l = 1 -> nth_error l k = Some x -> l = [x] /\ k = 0.
Proof.
  destruct l as [|y [|z l]]; simpl; try discriminate. intros _.
  destruct k as [|k]; simpl.
  - intros [= ->]. auto.
  - destruct k; discriminate.
Qed.

Lemma step_oneAtATime (w w' : World) (i : Input) :
  oneAtATime w -> notTimeout i -> step w i = Some w' -> oneAtATime w'.
Proof.
  intros Hinv Hnt H.
  destruct i as [now| | | |v|v|v|k r|k sink|k]; step_inv H;
    try contradiction; try exact Hinv.
  - unfold tick.
    change (triggers (app (onApp (setCountDown (nextRunText now)) w)) now)
      with (triggers (app w) now).
    destruct (triggers (app w) now) eqn:Ht; [|exact Hinv].
    apply triggers_iff in Ht. destruct Ht as (_ & _ & _ & _ & _ & Hst).
    unfold oneAtATime in Hinv. rewrite Hst in Hinv. destruct Hinv as [Hg Hs].
    apply rest_start; simpl; try assumption. now rewrite Hst.
  - unfold startOffered in Hoffer. unfold oneAtATime in Hinv.
    destruct (status (app w)) eqn:Hst; simpl in Hoffer; try discriminate;
      destruct Hinv as [Hg Hs]; apply rest_start; try assumption;
      now rewrite Hst.
  - unfold approveOffered in Hoffer. apply status_eqb_eq in Hoffer.
    unfold oneAtATime in *. rewrite Hoffer in Hinv. destruct Hinv as [Hg Hs].
    simpl. rewrite Hg, Hs. auto.
  - unfold oneAtATime in Hinv.
    destruct (status (app w)) eqn:Hst; try contradiction;
      destruct Hinv as [Hg Hs];
      try (rewrite Hg in Hnth; destruct k; discriminate).
    destruct (singleton_nth _ _ _ Hg Hnth) as [Hl ->].
    rewrite Hl. unfold startGeneration_resume.
    destruct r as [report|e]; [destruct (genRequireConfirmation g)|];
      unfold oneAtATime; simpl; rewrite Hs; auto.
  - unfold oneAtATime in Hinv.
    destruct (status (app w)) eqn:Hst; try contradiction;
      destruct Hinv as [Hg Hs];
      try (rewrite Hs in Hnth; destruct k; discriminate).
    destruct (singleton_nth _ _ _ Hs Hnth) as [Hl ->].
    rewrite Hl. destruct res; unfold oneAtATime; simpl; rewrite Hg; auto.
Qed.

(** X10.  As long as no reset timer fires, at most one call is in flight
    and the status tells which: exactly one generation while the status is
    [GENERATING], exactly one delivery while it is [SENDING], none in any
    other status; and [SEARCHING] is never the status an input finds. *)
Theorem one_call_at_a_time (inputs : list Input) :
  forall w w',
    oneAtATime w -> Forall notTimeout inputs -> run w inputs = Some w' ->
    oneAtATime w'.
Proof.
  induction inputs as [|i inputs IH]; intros w w' Hinv Hall H; simpl in H.
  - now injection H as <-.
  - inversion Hall; subst.
    destruct (step w i) as [w1|] eqn:Hstep; [|discriminate].
    apply (IH w1 w'); try assumption.
    now apply (step_oneAtATime w w1 i).
Qed.

Lemma one_call_at_a_time_witness :
  let friday := mkNow 5 16 30 "06/11/2026" in
  oneAtATime
    (after (initial "key" "hook")
       [Tick friday; GenerationSettles 0 (Ok "report");
        ClickStart; GenerationSettles 0 (Ok "report"); ClickApprove]).
Proof.
  intros friday.
  refine (one_call_at_a_time
            [Tick friday; GenerationSettles 0 (Ok "report");
             ClickStart; GenerationSettles 0 (Ok "report"); ClickApprove]
            (initial "key" "hook") _ _ _ _).
  - vm_compute. auto.
  - repeat constructor.
  - vm_compute. reflexivity.
Defined.

(** *** A run works with the settings it started with *)

Lemma run_app (a b : list Input) :
  forall w, run w (a ++ b) = match run w a with
                             | Some w1 => run w1 b
                             | None => None
                             end.
Proof.
  induction a as [|i a IH]; intros w; simpl; [reflexivity|].
  destruct (step w i); [apply IH | reflexivity].
Qed.

Lemma nth_error_snoc {A : Type} (l : list A) (x : A) :
  nth_error (l ++ [x]) (List.length l) = Some x.
Proof. induction l as [|y l IH]; simpl; [reflexivity | exact IH]. Qed.

Lemma dropNth_snoc {A : Type} (l : list A) (x : A) :
  dropNth (List.length l) (l ++ [x]) = l.
Proof. induction l as [|y l IH]; simpl; [reflexivity | now rewrite IH]. Qed.

(** Edits of the configuration, made while a run is generating, change
    the configuration only. *)
Lemma run_edits (edits : list Input) :
  forall w,
    Forall isEdit edits -> status (app w) = GENERATING ->
    exists w',
      run w edits = Some w'
      /\ status (app w') = GENERATING
      /\ logs (app w') = logs (app w)
      /\ lastReport (app w') = lastReport (app w)
      /\ timers w' = timers w /\ generating w' = generating w
      /\ sending w' = sending w /\ alerts w' = alerts w
      /\ network w' = network w.
Proof.
  induction edits as [|i edits IH]; intros w Hall Hst.
  - exists w. repeat split; assumption.
  - inversion Hall as [|? ? Hi Hrest]; subst.
    assert (Hstep : exists w1,
               step w i = Some w1 /\ status (app w1) = GENERATING
               /\ logs (app w1) = logs (app w)
               /\ lastReport (app w1) = lastReport (app w)
               /\ timers w1 = timers w /\ generating w1 = generating w
               /\ sending w1 = sending w /\ alerts w1 = alerts w
               /\ network w1 = network w).
    { destruct i; simpl in Hi; try contradiction; simpl;
        try (eexists; repeat split; exact Hst).
      unfold timerSwitchOffered. rewrite Hst. simpl.
      eexists. repeat split. exact Hst. }
    destruct Hstep as (w1 & Hs1 & Hst1 & Hl1 & Hr1 & Ht1 & Hg1 & Hsd1 & Ha1 & Hn1).
    destruct (IH w1 Hrest Hst1)
      as (w' & Hrun & Hst' & Hl' & Hr' & Ht' & Hg' & Hsd' & Ha' & Hn').
    exists w'. simpl. rewrite Hs1.
    repeat split; try assumption; congruence.
Qed.

(** X11.  A run works with the settings it started with.  Whatever is
    typed or switched while the generation is awaited, the report that
    arrives is handled by the confirmation setting of the start: it waits
    for approval if confirmation was required then, and is otherwise sent
    at once, to the webhook address of the start. *)
Theorem run_uses_settings_of_its_start (w : World) (edits : list Input)
        (report : string) :
  status (app w) <> SEARCHING -> status (app w) <> GENERATING ->
  apiKey (app w) <> "" -> Forall isEdit edits ->
  exists w',
    run (startGeneration w)
        (edits ++ [GenerationSettles (List.length (generating w)) (Ok report)])
    = Some w'
    /\ lastReport (app w') = report
    /\ generating w' = generating w
    /\ (requireConfirmation (app w) = true ->
        status (app w') = REVIEWING /\ sending w' = sending w)
    /\ (requireConfirmation (app w) = false ->
        status (app w') = SENDING
        /\ sending w'
           = (sending w ++ [mkSendCall (webhookUrl (app w)) report])%list).
Proof.
  intros Hs Hg Hkey Hall. apply status_eqb_neq in Hs, Hg.
  assert (Hstart : status (app (startGeneration w)) = GENERATING
                   /\ generating (startGeneration w)
                      = (generating w
                         ++ [mkGenCall (apiKey (app w))
                                       (requireConfirmation (app w))
                                       (webhookUrl (app w))])%list
                   /\ sending (startGeneration w) = sending w).
  { unfold startGeneration. rewrite Hs, Hg. simpl.
    destruct (apiKey (app w)); [congruence|]. simpl. auto. }
  destruct Hstart as (Hst0 & Hg0 & Hsd0).
  destruct (run_edits edits (startGeneration w) Hall Hst0)
    as (w1 & Hrun & Hst1 & _ & _ & _ & Hg1 & Hsd1 & _ & _).
  rewrite run_app, Hrun. simpl.
  rewrite Hg1, Hg0, nth_error_snoc, dropNth_snoc.
  eexists. split; [reflexivity|].
  unfold startGeneration_resume. simpl.
  destruct (requireConfirmation (app w)); simpl;
    (split; [reflexivity|]); (split; [reflexivity|]);
    split; intros Hrc; try discriminate; split; try reflexivity;
    congruence.
Qed.

Lemma run_uses_settings_of_its_start_witness :
  exists w',
    run (startGeneration
           (after (initial "key" "hook") [CheckConfirmation false]))
        ([TypeWebhookUrl "other"; CheckConfirmation true]
         ++ [GenerationSettles 0 (Ok "report")])
    = Some w'
    /\ status (app w') = SENDING
    /\ sending w' = [mkSendCall "hook" "report"].
Proof.
  destruct (run_uses_settings_of_its_start
              (after (initial "key" "hook") [CheckConfirmation false])
              [TypeWebhookUrl "other"; CheckConfirmation true] "report")
    as (w' & Hrun & _ & _ & _ & Hauto).
  - vm_compute. discriminate.
  - vm_compute. discriminate.
  - vm_compute. discriminate.
  - repeat constructor.
  - exists w'. split; [exact Hrun|]. apply Hauto. reflexivity.
Defined.

(** *** Deliveries and the workflow *)

Lemma sendToWeCom_delivered (sink : WeCom.Sink) (webhookUrl content : string) :
  WeCom.allAccepted sink webhookUrl content ->
  WeCom.sendToWeCom sink webhookUrl content
  = (Ok tt, WeCom.deliveredTrace (WeCom.targetUrl webhookUrl)
                                 (WeCom.chunksOf content)).
Proof.
  intros H. unfold WeCom.sendToWeCom. apply sendFrom_success; [reflexivity|].
  intros j Hj. apply H. exact Hj.
Qed.

(** X12.  A report that is empty, or made of line feeds only, is reported
    as delivered although nothing is sent: whatever the sink would answer,
    the status becomes [COMPLETED], the two success entries are logged, no
    request is made and no alert is shown. *)
Theorem empty_report_completes_without_sending (w : World) (k : nat)
        (c : SendCall) (sink : WeCom.Sink) :
  nth_error (sending w) k = Some c -> onlyLF (sendContent c) = true ->
  exists w',
    step w (SendSettles k sink) = Some w'
    /\ status (app w') = COMPLETED
    /\ network w' = network w
    /\ alerts w' = alerts w
    /\ logs (app w')
       = (logs (app w)
          ++ [mkLog "Successfully pushed to Enterprise WeChat." success;
              mkLog "Workflow complete. Resetting for next cycle." success])%list.
Proof.
  intros Hc Hempty. simpl. rewrite Hc.
  unfold WeCom.sendToWeCom, WeCom.chunksOf.
  rewrite (split_onlyLF WeCom.CHUNK_SIZE _ Hempty). simpl.
  eexists. split; [reflexivity|]. simpl.
  rewrite app_nil_r, <- app_assoc. auto.
Qed.

Lemma empty_report_completes_without_sending_witness :
  let w := after (initial "key" "hook")
             [ClickStart; GenerationSettles 0 (Ok ""); ClickApprove] in
  exists w',
    step w (SendSettles 0 (WeCom.unreachableFrom 0)) = Some w'
    /\ status (app w') = COMPLETED
    /\ network w' = network w.
Proof.
  intros w.
  destruct (empty_report_completes_without_sending w 0 (mkSendCall "hook" "")
              (WeCom.unreachableFrom 0) eq_refl eq_refl)
    as (w' & Hstep & Hst & Hnet & _).
  exists w'. auto.
Defined.

Lemma start_facts (w : World) :
  startOffered (app w) = true -> apiKey (app w) <> "" ->
  exists w1,
    step w ClickStart = Some w1
    /\ status (app w1) = GENERATING
    /\ generating w1
       = (generating w
          ++ [mkGenCall (apiKey (app w)) (requireConfirmation (app w))
                        (webhookUrl (app w))])%list
    /\ sending w1 = sending w /\ timers w1 = timers w
    /\ alerts w1 = alerts w /\ network w1 = network w
    /\ webhookUrl (app w1) = webhookUrl (app w).
Proof.
  intros Hoffer Hkey. simpl. rewrite Hoffer. unfold startGeneration.
  assert (Hst : status_eqb (status (app w)) SEARCHING
                || status_eqb (status (app w)) GENERATING = false).
  { unfold startOffered in Hoffer.
    destruct (status (app w)); simpl in *; congruence. }
  rewrite Hst. destruct (apiKey (app w)); [congruence|]. simpl.
  eexists. repeat split.
Qed.

Lemma review_facts (w : World) (k : nat) (g : GenCall) (report : string) :
  nth_error (generating w) k = Some g -> genRequireConfirmation g = true ->
  exists w2,
    step w (GenerationSettles k (Ok report)) = Some w2
    /\ status (app w2) = REVIEWING
    /\ lastReport (app w2) = report
    /\ generating w2 = dropNth k (generating w)
    /\ sending w2 = sending w /\ timers w2 = timers w
    /\ alerts w2 = alerts w /\ network w2 = network w
    /\ webhookUrl (app w2) = webhookUrl (app w).
Proof.
  intros Hg Hrc. simpl. rewrite Hg. unfold startGeneration_resume.
  rewrite Hrc. eexists. repeat split.
Qed.

Lemma approve_facts (w : World) :
  status (app w) = REVIEWING ->
  exists w3,
    step w ClickApprove = Some w3
    /\ status (app w3) = SENDING
    /\ lastReport (app w3) = lastReport (app w)
    /\ sending w3
       = (sending w
          ++ [mkSendCall (webhookUrl (app w)) (lastReport (app w))])%list
    /\ generating w3 = generating w /\ timers w3 = timers w
    /\ alerts w3 = alerts w /\ network w3 = network w.
Proof.
  intros Hst. simpl. unfold approveOffered. rewrite Hst. simpl.
  eexists. repeat split.
Qed.

Lemma delivered_facts (w : World) (k : nat) (c : SendCall)
      (sink : WeCom.Sink) :
  nth_error (sending w) k = Some c ->
  WeCom.allAccepted sink (sendUrl c) (sendContent c) ->
  exists w4,
    step w (SendSettles k sink) = Some w4
    /\ status (app w4) = COMPLETED
    /\ lastReport (app w4) = lastReport (app w)
    /\ network w4
       = (network w
          ++ WeCom.deliveredTrace (WeCom.targetUrl (sendUrl c))
                                  (WeCom.chunksOf (sendContent c)))%list
    /\ timers w4 = (timers w ++ [60000%N])%list
    /\ sending w4 = dropNth k (sending w)
    /\ generating w4 = generating w /\ alerts w4 = alerts w.
Proof.
  intros Hc Hacc. cbn [step]. rewrite Hc.
  rewrite (sendToWeCom_delivered sink _ _ Hacc).
  unfold executeSend_resume. eexists. repeat split.
Qed.

(** X13.  A manual cycle composes: from a status in which the start is on
    offer, with a credential, confirmation required and nothing in flight,
    start, a generated report, approval and a sink that accepts every chunk
    lead to [COMPLETED] with the report stored, every chunk posted once in
    order, no alert and one 60 s reset armed; when that reset fires the
    status is [WAITING] again. *)
Theorem manual_cycle_completes (w : World) (report : string)
        (sink : WeCom.Sink) :
  startOffered (app w) = true -> apiKey (app w) <> "" ->
  requireConfirmation (app w) = true ->
  generating w = [] -> sending w = [] ->
  WeCom.allAccepted sink (webhookUrl (app w)) report ->
  exists w',
    run w [ClickStart; GenerationSettles 0 (Ok report); ClickApprove;
           SendSettles 0 sink] = Some w'
    /\ status (app w') = COMPLETED
    /\ lastReport (app w') = report
    /\ WeCom.fetches (network w')
       = (WeCom.fetches (network w)
          ++ map (WeCom.request (WeCom.targetUrl (webhookUrl (app w))))
                 (WeCom.chunksOf report))%list
    /\ alerts w' = alerts w
    /\ timers w' = (timers w ++ [60000%N])%list
    /\ generating w' = [] /\ sending w' = []
    /\ exists w'',
         step w' (TimeoutFires (List.length (timers w))) = Some w''
         /\ status (app w'') = WAITING
         /\ timers w'' = timers w
         /\ lastReport (app w'') = report.
Proof.
  intros Hoffer Hkey Hrc Hg Hs Hacc.
  destruct (start_facts w Hoffer Hkey)
    as (w1 & Hs1 & _ & Hg1 & Hsd1 & Ht1 & Ha1 & Hn1 & Hu1).
  rewrite Hg in Hg1. simpl in Hg1.
  destruct (review_facts w1 0 _ report ltac:(rewrite Hg1; reflexivity) Hrc)
    as (w2 & Hs2 & Hst2 & Hr2 & Hg2 & Hsd2 & Ht2 & Ha2 & Hn2 & Hu2).
  rewrite Hg1 in Hg2. simpl in Hg2.
  destruct (approve_facts w2 Hst2)
    as (w3 & Hs3 & Hst3 & Hr3 & Hsd3 & Hg3 & Ht3 & Ha3 & Hn3).
  rewrite Hsd2, Hsd1, Hs, Hu2, Hu1, Hr2 in Hsd3. simpl in Hsd3.
  destruct (delivered_facts w3 0 _ sink ltac:(rewrite Hsd3; reflexivity) Hacc)
    as (w4 & Hs4 & Hst4 & Hr4 & Hn4 & Ht4 & Hsd4 & Hg4 & Ha4).
  rewrite Hsd3 in Hsd4. simpl in Hsd4. simpl in Hn4.
  exists w4. cbn [run]. rewrite Hs1, Hs2, Hs3, Hs4.
  split; [reflexivity|]. split; [assumption|].
  split; [congruence|].
  split.
  { rewrite Hn4, fetches_app, fetches_deliveredTrace. congruence. }
  split; [congruence|]. split; [congruence|].
  split; [congruence|]. split; [assumption|].
  assert (Htimers : timers w4 = (timers w ++ [60000%N])%list) by congruence.
  cbn [step]. rewrite Htimers, nth_error_snoc, dropNth_snoc.
  eexists. split; [reflexivity|]. simpl. repeat split. congruence.
Qed.

Lemma manual_cycle_completes_witness :
  exists w',
    run (initial "key" "hook")
      [ClickStart; GenerationSettles 0 (Ok "report"); ClickApprove;
       SendSettles 0 WeCom.accepting] = Some w'
    /\ status (app w') = COMPLETED.
Proof.
  destruct (manual_cycle_completes (initial "key" "hook") "report"
              WeCom.accepting eq_refl)
    as (w' & Hrun & Hst & _).
  - discriminate.
  - reflexivity.
  - reflexivity.
  - reflexivity.
  - intros i _. reflexivity.
  - exists w'. auto.
Defined.

(** *** Failures before the delivery *)

(** X14.  A generation that fails leaves the status [ERROR] with one error
    entry logged, the report stored before untouched, nothing sent and no
    alert; the approval is not on offer, the start is, and the 60 s reset
    armed by the failure brings the status back to [WAITING]. *)
Theorem failed_generation_recovers (w : World) (k : nat) (g : GenCall)
        (e : Error) :
  nth_error (generating w) k = Some g ->
  exists w',
    step w (GenerationSettles k (Throw e)) = Some w'
    /\ status (app w') = ERROR
    /\ lastReport (app w') = lastReport (app w)
    /\ logs (app w')
       = (logs (app w) ++ [mkLog ("Generation Error: " ++ Js.message e) error])%list
    /\ sending w' = sending w /\ alerts w' = alerts w
    /\ network w' = network w
    /\ timers w' = (timers w ++ [60000%N])%list
    /\ approveOffered (app w') = false /\ startOffered (app w') = true
    /\ exists w'',
         step w' (TimeoutFires (List.length (timers w))) = Some w''
         /\ status (app w'') = WAITING
         /\ lastReport (app w'') = lastReport (app w)
         /\ timers w'' = timers w.
Proof.
  intros Hg. simpl. rewrite Hg. eexists. split; [reflexivity|]. simpl.
  repeat split.
  rewrite nth_error_snoc, dropNth_snoc. eexists. repeat split.
Qed.

Lemma failed_generation_recovers_witness :
  let w := after (initial "key" "hook") [ClickStart] in
  exists w',
    step w (GenerationSettles 0 (Throw (mkError "quota"))) = Some w'
    /\ status (app w') = ERROR.
Proof.
  intros w.
  destruct (failed_generation_recovers w 0 (mkGenCall "key" true "hook")
              (mkError "quota") eq_refl)
    as (w' & Hstep & Hst & _).
  exists w'. auto.
Defined.

(** X15.  A scheduled run that finds no credential is not made up for:
    the tick logs the trigger and the missing key, sets the status to
    [ERROR] with a 5 s reset, calls no generation, and has recorded the
    day, so that no later tick of that day starts a run, whatever is typed
    in the meantime. *)
Theorem scheduled_run_without_key_is_lost (w : World) (now : Now) :
  triggers (app w) now = true -> apiKey (app w) = "" ->
  status (app (tick now w)) = ERROR
  /\ generating (tick now w) = generating w
  /\ timers (tick now w) = (timers w ++ [5000%N])%list
  /\ logs (app (tick now w))
     = (logs (app w)
        ++ [mkLog ("Auto-Scheduler triggered for " ++ dateKey now) warning;
            mkLog "API Key missing. Cannot execute workflow." error])%list
  /\ lastRunDateRef (app (tick now w)) = dateKey now
  /\ forall inputs,
       Forall (onDay (dateKey now)) inputs ->
       autoFires (tick now w) inputs = 0.
Proof.
  intros Ht Hkey.
  assert (Hst : status (app w) = WAITING) by (now apply triggers_iff in Ht).
  assert (Htick : tick now w
                  = setTimeout 5000%N
                      (onApp (setStatus ERROR)
                         (onApp (addLog "API Key missing. Cannot execute workflow." error)
                            (onApp (setLastRunDate (dateKey now))
                               (onApp (addLog ("Auto-Scheduler triggered for "
                                               ++ dateKey now) warning)
                                  (onApp (setCountDown (nextRunText now)) w)))))).
  { unfold tick.
    change (triggers (app (onApp (setCountDown (nextRunText now)) w)) now)
      with (triggers (app w) now).
    rewrite Ht. unfold startGeneration. simpl. now rewrite Hst, Hkey. }
  rewrite Htick. simpl. rewrite <- app_assoc. repeat split.
  intros inputs Hall. now apply (autoFires_same_day (dateKey now)).
Qed.

Lemma scheduled_run_without_key_is_lost_witness :
  let friday := mkNow 5 16 30 "06/11/2026" in
  autoFires (tick friday (initial "" "hook"))
            [TimeoutFires 0; TypeApiKey "key"; Tick friday; Tick friday]
  = 0.
Proof.
  intros friday.
  refine (proj2 (proj2 (proj2 (proj2 (proj2
            (scheduled_run_without_key_is_lost (initial "" "hook") friday
               eq_refl eq_refl)))))
            [TimeoutFires 0; TypeApiKey "key"; Tick friday; Tick friday] _).
  repeat constructor.
Defined.

(** *** The countdown *)

Ltac clock_cases :=
  repeat match goal with
         | |- context [(?a <? ?b)%nat] => destruct (Nat.ltb_spec a b)
         | |- context [(?a =? ?b)%nat] => destruct (Nat.eqb_spec a b)
         end.

(** X7.  The countdown text tells where the clock stands with respect to
    Friday 16:30: another day; Friday with an hour or more to go; Friday
    with [d] minutes to go, for [d] from 1 to 59; the minute itself; Friday
    later on.  It reads "Running Scheduled Task..." exactly in the minute
    in which the scheduler may start a run. *)
Theorem countdown_text (now : Now) :
  (nextRunText now = "Running Scheduled Task..."
   <-> isFriday now && isTimeWindow now = true)
  /\ (getDay now <> 5 -> nextRunText now = "Next run: Friday 16:30")
  /\ (getDay now = 5 -> getMinutes now < 60 ->
      (minuteOfDay now <= 930 -> nextRunText now = "Today at 16:30")
      /\ (930 < minuteOfDay now < 990 ->
          nextRunText now
          = "Starts in " ++ dec (990 - minuteOfDay now) ++ " mins")
      /\ (minuteOfDay now = 990 -> nextRunText now = "Running Scheduled Task...")
      /\ (990 < minuteOfDay now -> nextRunText now = "Next run: Next Friday")).
Proof.
  unfold nextRunText, isFriday, isTimeWindow, minuteOfDay.
  split; [|split].
  - generalize (dec (16 * 60 + 30 - (getHours now * 60 + getMinutes now))).
    intros d. clock_cases; cbn [orb andb append]; split; intros Htext;
      try discriminate; try reflexivity; try lia.
  - intros Hday. destruct (Nat.eqb_spec (getDay now) 5); [contradiction|].
    reflexivity.
  - intros Hday Hmin. rewrite Hday. cbn [Nat.eqb].
    change (16 * 60 + 30) with 990.
    repeat split; intros Hm; clock_cases; cbn [orb andb]; try reflexivity;
      try lia.
Qed.

Lemma countdown_text_witness :
  nextRunText (mkNow 5 16 12 "06/11/2026") = "Starts in 18 mins".
Proof.
  refine (proj1 (proj2 (proj2 (proj2 (countdown_text (mkNow 5 16 12 "06/11/2026")))
                   eq_refl _)) _).
  - simpl. lia.
  - vm_compute. lia.
Defined.

End WorkflowFurther.

(** ** The address of the requests *)

Section TargetAddress.

Import WeCom.

Lemma hexDigit_inj (a b : nat) :
  a < 16 -> b < 16 -> hexDigit a = hexDigit b -> a = b.
Proof.
  intros Ha Hb.
  do 16 (destruct a as [|a];
         [do 16 (destruct b as [|b];
                 [first [reflexivity | discriminate]|]); lia|]).
  lia.
Qed.

Lemma append_inj_l (p a b : string) : p ++ a = p ++ b -> a = b.
Proof.
  induction p as [|c p IH]; simpl; [auto|].
  intros H. injection H as H. auto.
Qed.

Lemma ascii_of_hex (c1 c2 : ascii) :
  hexDigit (nat_of_ascii c1 / 16) = hexDigit (nat_of_ascii c2 / 16) ->
  hexDigit (nat_of_ascii c1 mod 16) = hexDigit (nat_of_ascii c2 mod 16) ->
  c1 = c2.
Proof.
  intros Hhi Hlo.
  pose proof (nat_ascii_bounded c1) as B1.
  pose proof (nat_ascii_bounded c2) as B2.
  apply hexDigit_inj in Hhi;
    try (apply Nat.Div0.div_lt_upper_bound; lia).
  apply hexDigit_inj in Hlo; try (apply Nat.mod_upper_bound; lia).
  rewrite <- (ascii_nat_embedding c1), <- (ascii_nat_embedding c2).
  f_equal.
  rewrite (Nat.div_mod_eq (nat_of_ascii c1) 16),
    (Nat.div_mod_eq (nat_of_ascii c2) 16).
  congruence.
Qed.

Lemma encodeURIComponent_inj (s1 : string) :
  forall s2, encodeURIComponent s1 = encodeURIComponent s2 -> s1 = s2.
Proof.
  induction s1 as [|c1 s1 IH]; intros [|c2 s2]; simpl.
  - reflexivity.
  - destruct (unreserved c2); discriminate.
  - destruct (unreserved c1); discriminate.
  - destruct (unreserved c1) eqn:U1, (unreserved c2) eqn:U2; intros H.
    + injection H as -> H. f_equal. auto.
    + injection H as -> _. discriminate.
    + injection H as <- _. discriminate.
    + injection H as Hhi Hlo H.
      rewrite (ascii_of_hex c1 c2 Hhi Hlo). f_equal. auto.
Qed.

Lemma encodeURIComponent_cons (c : ascii) (s : string) :
  encodeURIComponent (String c s)
  = if unreserved c then String c (encodeURIComponent s)
    else String "%" (String (hexDigit (nat_of_ascii c / 16))
                       (String (hexDigit (nat_of_ascii c mod 16))
                          (encodeURIComponent s))).
Proof. reflexivity. Qed.

Lemma unreserved_hexDigit (n : nat) : n < 16 -> unreserved (hexDigit n) = true.
Proof.
  intros Hn. do 16 (destruct n as [|n]; [reflexivity|]). lia.
Qed.

Lemma encodeURIComponent_units (s : string) :
  Forall (fun c => unreserved c = true \/ c = "%"%char)
         (list_ascii_of_string (encodeURIComponent s)).
Proof.
  induction s as [|c s IH]; [constructor|].
  rewrite encodeURIComponent_cons.
  destruct (unreserved c) eqn:U; cbn [list_ascii_of_string].
  - constructor; auto.
  - pose proof (nat_ascii_bounded c) as B.
    constructor; [now right|].
    constructor;
      [left; apply unreserved_hexDigit; apply Nat.Div0.div_lt_upper_bound; lia|].
    constructor;
      [left; apply unreserved_hexDigit; apply Nat.mod_upper_bound; lia|].
    assumption.
Qed.

(** X16.  The address a delivery posts to determines the webhook address:
    two webhook addresses never share a target; and after the proxy prefix
    the target holds only letters, digits, [- _ . ! ~ * ' ( )] and [%], so
    that nothing of the webhook address (its [?], [&], [=] or [#]) is read
    as part of the proxy's own address. *)
Theorem target_address_is_faithful (u1 u2 : string) :
  (targetUrl u1 = targetUrl u2 -> u1 = u2)
  /\ exists tail,
       targetUrl u1 = "https://corsproxy.io/?" ++ tail
       /\ Forall (fun c => unreserved c = true \/ c = "%"%char)
                 (list_ascii_of_string tail).
Proof.
  split.
  - unfold targetUrl. intros H. apply append_inj_l in H.
    now apply encodeURIComponent_inj.
  - exists (encodeURIComponent u1). split; [reflexivity|].
    apply encodeURIComponent_units.
Qed.

Lemma target_address_is_faithful_witness :
  "https://a.example/hook?key=1&x=2" = "https://a.example/hook?key=1&x=2".
Proof.
  apply (proj1 (target_address_is_faithful
                  "https://a.example/hook?key=1&x=2"
                  "https://a.example/hook?key=1&x=2")).
  reflexivity.
Defined.

End TargetAddress.
